(** * Daily stock charts: indicator computation and chart pipeline

    A shallow embedding of [stock_charts_github.py]: the RSI and
    moving-average computations, the display-window selection, the
    candlestick/tick/annotation layout and the per-ticker batch loop.

    Numbers.  pandas columns hold IEEE doubles.  A cell is modelled by
    [fnum]: a finite value (an exact rational, rounding is not modelled),
    an infinity, or NaN (pandas' "missing").  The special values follow the
    IEEE rules that the code relies on: [x/0] is infinite for [x <> 0],
    [0/0] and [inf - inf] are NaN, NaN propagates and compares false.
    Sums, differences and means of finite values are exact and so never
    leave the finite values, whereas a double sum overflows above about
    1.8e308 and a double quotient underflows below about 4.9e-324.  A
    statement that a computed value is a number, or is a given number
    away from the warm-up, therefore carries a bound on the magnitudes
    ([fits_doubles], [magnitude_le], [magnitude_ge_inv]) under which the
    doubles of the code stay in range.

    Objects.  Data frames are mutable objects: they live in a store and
    are passed by reference, so that an assignment [df[name] = ...] is
    seen through every reference to the frame.  Series are values.

    Collaborators.  The clock, New York's zone rule (its offset from UTC
    as a function of the instant), the data source, the date formatting,
    the image backend and the mail transport are fields of a [World]. *)

From Stdlib Require Import QArith Qcanon.
From Stdlib.Strings Require Import Byte.
From stdpp Require Import gmap strings list fin_maps pretty sorting.

Local Open Scope Qc_scope.

(** ** Floating-point cells *)

Inductive fnum : Type :=
  | Num (q : Qc)
  | Inf (neg : bool)
  | NaN.

Global Instance fnum_eq_dec : EqDecision fnum.
Proof. solve_decision. Defined.

Global Instance fnum_inhabited : Inhabited fnum := populate NaN.

Definition F (z : Z) : fnum := Num (Q2Qc (inject_Z z)).

Definition Fnat (n : nat) : fnum := F (Z.of_nat n).

Definition isna (x : fnum) : bool :=
  match x with NaN => true | _ => false end.

Definition notna (x : fnum) : bool := negb (isna x).

Definition isinf (x : fnum) : bool :=
  match x with Inf _ => true | _ => false end.

Definition isfinite (x : fnum) : bool :=
  match x with Num _ => true | _ => false end.

Definition Qc_ltb (a b : Qc) : bool := bool_decide (a < b).
Definition Qc_eqb (a b : Qc) : bool := bool_decide (a = b).

Definition fneg (x : fnum) : fnum :=
  match x with
  | Num q => Num (- q)
  | Inf s => Inf (negb s)
  | NaN => NaN
  end.

Definition fadd (x y : fnum) : fnum :=
  match x, y with
  | NaN, _ | _, NaN => NaN
  | Num a, Num b => Num (a + b)
  | Inf s, Num _ | Num _, Inf s => Inf s
  | Inf s, Inf t => if Bool.eqb s t then Inf s else NaN
  end.

Definition fsub (x y : fnum) : fnum := fadd x (fneg y).

Definition fmul (x y : fnum) : fnum :=
  match x, y with
  | NaN, _ | _, NaN => NaN
  | Num a, Num b => Num (a * b)
  | Inf s, Num b | Num b, Inf s =>
      if Qc_eqb b 0 then NaN else Inf (xorb s (Qc_ltb b 0))
  | Inf s, Inf t => Inf (xorb s t)
  end.

(** Array division (numpy): a zero divisor gives an infinity or NaN. *)
Definition fdiv (x y : fnum) : fnum :=
  match x, y with
  | NaN, _ | _, NaN => NaN
  | Num a, Num b =>
      if Qc_eqb b 0
      then (if Qc_eqb a 0 then NaN else Inf (Qc_ltb a 0))
      else Num (a / b)
  | Num _, Inf _ => Num 0
  | Inf s, Num b => Inf (xorb s (Qc_ltb b 0))
  | Inf _, Inf _ => NaN
  end.

Definition fabs (x : fnum) : fnum :=
  match x with
  | Num q => Num (if Qc_ltb q 0 then - q else q)
  | Inf _ => Inf false
  | NaN => NaN
  end.

(** Comparisons; every comparison with NaN is false, [!=] is true. *)
Definition flt (x y : fnum) : bool :=
  match x, y with
  | NaN, _ | _, NaN => false
  | Num a, Num b => Qc_ltb a b
  | Inf s, Num _ => s
  | Num _, Inf t => negb t
  | Inf s, Inf t => s && negb t
  end.

Definition fgt (x y : fnum) : bool := flt y x.

Definition feq (x y : fnum) : bool :=
  match x, y with
  | Num a, Num b => Qc_eqb a b
  | Inf s, Inf t => Bool.eqb s t
  | _, _ => false
  end.

Definition fne (x y : fnum) : bool := negb (feq x y).

Definition fge (x y : fnum) : bool := flt y x || feq x y.

(** Python's built-in [min(a, b)] and [max(a, b)]: the first argument
    unless the second is strictly smaller (greater). *)
Definition fmin (x y : fnum) : fnum := if flt y x then y else x.
Definition fmax (x y : fnum) : fnum := if flt x y then y else x.

Local Close Scope Qc_scope.
Local Close Scope Q_scope.

(** ** Series *)

Abbreviation Series := (list fnum).

(** [s.iloc[i]] read through a total accessor; positions outside the
    series read as missing. *)
Definition at_pos (s : Series) (i : nat) : fnum := nth i s NaN.

(** [Series.diff()]: no delta for the first point. *)
Definition diff (s : Series) : Series :=
  match s with
  | [] => []
  | _ :: t => NaN :: zip_with fsub t s
  end.

(** [s.where(cond, other)]: keep the entry where [cond] holds, else
    [other]. *)
Definition where_ (cond : fnum → bool) (other : fnum) (s : Series) : Series :=
  map (λ x, if cond x then x else other) s.

Definition neg (s : Series) : Series := map fneg s.

Definition fsum (l : list fnum) : fnum := foldr fadd (F 0) l.

(** The trailing window of at most [w] entries ending at position [i]. *)
Definition window (w : nat) (s : Series) (i : nat) : Series :=
  drop (S i - w) (take (S i) s).

(** [s.rolling(window=w).mean()]: [min_periods] defaults to [w]; infinite
    entries are treated as missing; a position gets a value once its
    window holds [w] observations.  pandas keeps one running sum along
    the column, adding the entry that enters the window and taking off
    the one that leaves: in exact arithmetic that is the sum of the
    window, as here.  In doubles a running sum that overflows once stays
    infinite or NaN for the positions after it; the model has no such
    state, and agrees with the code up to rounding where every sum of [w]
    entries of the column stays in the range of doubles. *)
Definition rolling_mean_at (w : nat) (s : Series) (i : nat) : fnum :=
  let obs := filter (λ x, isfinite x = true) (window w s i) in
  if bool_decide (w ≤ length obs)%nat && bool_decide (0 < length obs)%nat
  then fdiv (fsum obs) (F (Z.of_nat (length obs)))
  else NaN.

Definition rolling_mean (w : nat) (s : Series) : Series :=
  map (rolling_mean_at w s) (seq 0 (length s)).

(** ** calculate_rsi on a close column *)

Definition rsi_gain (close : Series) (period : nat) : Series :=
  rolling_mean period (where_ (λ d, fgt d (F 0)) (F 0) (diff close)).

Definition rsi_loss (close : Series) (period : nat) : Series :=
  rolling_mean period (neg (where_ (λ d, flt d (F 0)) (F 0) (diff close))).

Definition rsi_of (gain loss : fnum) : fnum :=
  let rs := fdiv gain loss in
  fsub (F 100) (fdiv (F 100) (fadd (F 1) rs)).

Definition rsi_series (close : Series) (period : nat) : Series :=
  zip_with rsi_of (rsi_gain close period) (rsi_loss close period).

(** ** Exceptions and results *)

Inductive exn : Type :=
  | KeyError (key : string)
  | IndexError
  | ZeroDivisionError
  | RuntimeError (msg : string).

Inductive result (A : Type) : Type :=
  | Ok (a : A)
  | Raise (e : exn).
Arguments Ok {A} a.
Arguments Raise {A} e.

Global Instance exn_eq_dec : EqDecision exn.
Proof. solve_decision. Defined.

Global Instance result_eq_dec `{EqDecision A} : EqDecision (result A).
Proof. solve_decision. Defined.

Global Instance result_ret : MRet result := @Ok.
Global Instance result_bind : MBind result := λ A B k r,
  match r with
  | Ok a => k a
  | Raise e => Raise e
  end.

(** ** Data frames *)

(** A timestamp: what its wall clock shows, in seconds counted from
    1970-01-01 00:00 on that wall clock, and an optional time zone.  The
    offset a zone has from UTC at an instant is the zone rule of the
    collaborators below. *)
Record Timestamp : Type := mkTimestamp { wall : Z; tz : option string }.

Record Row : Type := mkRow { stamp : Timestamp; cells : gmap string fnum }.

Record DataFrame : Type := mkDataFrame { columns : list string; rows : list Row }.

Global Instance Timestamp_eq_dec : EqDecision Timestamp.
Proof. solve_decision. Defined.

Global Instance Row_eq_dec : EqDecision Row.
Proof. solve_decision. Defined.

Global Instance DataFrame_eq_dec : EqDecision DataFrame.
Proof. solve_decision. Defined.

Definition cell (name : string) (r : Row) : fnum := default NaN (cells r !! name).

Definition set_cell (name : string) (v : fnum) (r : Row) : Row :=
  mkRow (stamp r) (<[name := v]> (cells r)).

(** [df[name]] *)
Definition getcol (name : string) (d : DataFrame) : result Series :=
  if bool_decide (name ∈ columns d)
  then Ok (map (cell name) (rows d))
  else Raise (KeyError name).

(** [df[name] = s] for a series [s] carrying the frame's own index: the
    column is replaced, or appended after the existing ones. *)
Definition setcol (name : string) (s : Series) (d : DataFrame) : DataFrame :=
  mkDataFrame
    (if bool_decide (name ∈ columns d) then columns d else columns d ++ [name])
    (imap (λ i r, set_cell name (at_pos s i) r) (rows d)).

(** [df.empty] *)
Definition df_empty (d : DataFrame) : bool :=
  bool_decide (columns d = []) || bool_decide (rows d = []).

Definition row_complete (cols : list string) (r : Row) : bool :=
  forallb (λ c, notna (cell c r)) cols.

(** [df.dropna()]: a new frame without the rows that have a missing value. *)
Definition dropna (d : DataFrame) : DataFrame :=
  mkDataFrame (columns d) (filter (λ r, row_complete (columns d) r = true) (rows d)).

(** [index.tz_localize(None)] *)
Definition tz_localize_none (t : Timestamp) : Timestamp := mkTimestamp (wall t) None.

Definition set_index_naive (d : DataFrame) : DataFrame :=
  mkDataFrame (columns d) (map (λ r, mkRow (tz_localize_none (stamp r)) (cells r)) (rows d)).

(** ** The object store *)

Definition loc := nat.
Abbreviation heap := (gmap loc DataFrame).

Definition M (A : Type) : Type := heap → result A * heap.

Definition ret {A} (a : A) : M A := λ h, (Ok a, h).

Definition bind {A B} (m : M A) (k : A → M B) : M B :=
  λ h, match m h with
       | (Ok a, h') => k a h'
       | (Raise e, h') => (Raise e, h')
       end.

Definition lift {A} (r : result A) : M A := λ h, (r, h).

Declare Scope py_scope.
Delimit Scope py_scope with py.
Notation "x <- m ;; k" := (bind m (λ x, k))
  (at level 100, m at next level, right associativity) : py_scope.
Notation "m ;;; k" := (bind m (λ _, k))
  (at level 100, right associativity) : py_scope.
Local Open Scope py_scope.

Definition new (d : DataFrame) : M loc :=
  λ h, let l := fresh (dom h) in (Ok l, <[l := d]> h).

Definition deref (df : loc) : M DataFrame :=
  λ h, match h !! df with
       | Some d => (Ok d, h)
       | None => (Raise (RuntimeError "dangling reference"), h)
       end.

Definition getitem (df : loc) (name : string) : M Series :=
  d <- deref df ;; lift (getcol name d).

Definition setitem (df : loc) (name : string) (s : Series) : M unit :=
  d <- deref df ;; (λ h, (Ok tt, <[df := setcol name s d]> h)).

(** ** calculate_rsi and calculate_moving_averages *)

Definition calculate_rsi (data : loc) (period : nat) : M Series :=
  close <- getitem data "Close" ;;
  ret (rsi_series close period).

Definition ma_name (period : nat) : string := "MA" +:+ pretty period.

Fixpoint ma_loop (df : loc) (periods : list nat) : M unit :=
  match periods with
  | [] => ret tt
  | period :: rest =>
      close <- getitem df "Close" ;;
      (setitem df (ma_name period) (rolling_mean period close) ;;;
      ma_loop df rest)
  end.

Definition calculate_moving_averages (df : loc) (periods : list nat) : M loc :=
  ma_loop df periods ;;; ret df.

(** ** The chart *)

(** What the drawing calls put on the figure.  Purely cosmetic calls
    (grid, axis names, legend placement, line widths) carry no data and are
    left out. *)
Inductive panel : Type := Price | Rsi.

Inductive artist : Type :=
  | Plot (ax : panel) (xs ys : list fnum) (color : string)
  | Bar (x : nat) (height bottom : fnum) (color : string)
  | AxHLine (y : Z) (color : string)
  | FillBetween (n : nat) (y1 y2 : Z)
  | RsiText (current_rsi : fnum)
  | PriceText (current_price change change_pct : fnum)
  | XTicks (positions : list nat)
  | XTickLabels (labels : list string)
  | Title (ticker : string) (end_date : Timestamp).

Global Instance panel_eq_dec : EqDecision panel.
Proof. solve_decision. Defined.

Global Instance artist_eq_dec : EqDecision artist.
Proof. solve_decision. Defined.

Abbreviation Figure := (list artist).
Abbreviation bytes := (list Byte.byte).

Definition Fq (q : Q) : fnum := Num (Q2Qc q).

(** [row[name]] for a row yielded by [iterrows()]. *)
Definition row_item (cols : list string) (r : Row) (name : string) : result fnum :=
  if bool_decide (name ∈ cols) then Ok (cell name r) else Raise (KeyError name).

(** The body of the candlestick loop for the point at position [idx]. *)
Definition candlestick (cols : list string) (idx : nat) (row : Row) : result Figure :=
  open_price ← row_item cols row "Open";
  close_price ← row_item cols row "Close";
  high_price ← row_item cols row "High";
  low_price ← row_item cols row "Low";
  let color := if fge close_price open_price then "g" else "r" in
  let high_low := Plot Price [Fnat idx; Fnat idx] [low_price; high_price] "black" in
  let height := fabs (fsub close_price open_price) in
  let bottom := fmin close_price open_price in
  if fgt height (F 0)
  then Ok [high_low; Bar idx height bottom color]
  else Ok [high_low;
           Plot Price [fsub (Fnat idx) (Fq (3 # 10)); fadd (Fnat idx) (Fq (3 # 10))]
                [close_price; close_price] "black"].

Fixpoint candlesticks (cols : list string) (idx : nat) (rs : list Row) : result Figure :=
  match rs with
  | [] => Ok []
  | row :: rest =>
      here ← candlestick cols idx row;
      more ← candlesticks cols (S idx) rest;
      Ok (here ++ more)
  end.

(** A moving-average overlay; any exception leaves the layer out. *)
Definition ma_overlay (name color : string) (d : DataFrame) : Figure :=
  match getcol name d with
  | Ok col =>
      let values := filter (λ v, notna v = true) col in
      if bool_decide (0 < length values)
      then [Plot Price
              (omap (λ p, if notna p.2 then Some (Fnat p.1) else None) (imap pair col))
              values color]
      else []
  | Raise _ => []
  end.

(** [s.iloc[-k]] for [k = 1, 2]. *)
Definition iloc_back (s : Series) (k : nat) : result fnum :=
  if bool_decide (k ≤ length s)
  then Ok (at_pos s (length s - k))
  else Raise IndexError.

(** Division of Python floats. *)
Definition py_div (x y : fnum) : result fnum :=
  if feq y (F 0) then Raise ZeroDivisionError else Ok (fdiv x y).

(** Integer floor division of naturals. *)
Definition py_floordiv (n m : nat) : result nat :=
  if bool_decide (m = 0) then Raise ZeroDivisionError else Ok (n / m).

(** [range(0, stop, step)] for a positive [step]. *)
Definition range_step (stop step : nat) : list nat :=
  map (λ k, k * step) (seq 0 ((stop + step - 1) / step)).

Definition price_annotation (close : Series) : result (fnum * fnum * fnum) :=
  current_price ← iloc_back close 1;
  if bool_decide (1 < length close)
  then
    previous_close ← iloc_back close 2;
    let change := fsub current_price previous_close in
    change_pct ←
      (if fne previous_close (F 0)
       then (q ← py_div change previous_close; Ok (fmul q (F 100)))
       else Ok (F 0));
    Ok (current_price, change, change_pct)
  else Ok (current_price, F 0, F 0).

Definition annotation_layer (d : DataFrame) : Figure :=
  match getcol "Close" d ≫= price_annotation with
  | Ok (current_price, change, change_pct) => [PriceText current_price change change_pct]
  | Raise _ => []
  end.

Definition x_ticks (n : nat) : result (list nat) :=
  let num_ticks := 6 `min` n in
  q ← py_floordiv n num_ticks;
  let tick_spacing := 1 `max` q in
  Ok (range_step n tick_spacing).

Section Chart.
(** [strftime('%b %y')] *)
Variable month_year : Timestamp → string.

Definition x_tick_labels (d : DataFrame) (ticks : list nat) : result (list string) :=
  mapM (λ i, match rows d !! i with
             | Some r => Ok (month_year (stamp r))
             | None => Raise IndexError
             end) ticks.

(** Lines 84-165 and 167-184: everything drawn for a display window. *)
Definition draw_chart (ticker : string) (end_date : Timestamp) (df_display : DataFrame)
  : result Figure :=
  candles ← candlesticks (columns df_display) 0 (rows df_display);
  let ma50 := ma_overlay "MA50" "blue" df_display in
  let ma200 := ma_overlay "MA200" "red" df_display in
  rsi_values ← getcol "RSI" df_display;
  let n := length (rows df_display) in
  current_rsi ← iloc_back rsi_values 1;
  let rsi_panel :=
    [Plot Rsi (map Fnat (seq 0 n)) rsi_values "purple";
     AxHLine 70 "red"; AxHLine 30 "green"; FillBetween n 30 70;
     RsiText current_rsi] in
  ticks ← x_ticks n;
  labels ← x_tick_labels df_display ticks;
  Ok (candles ++ ma50 ++ ma200 ++ rsi_panel
      ++ [XTicks ticks; XTickLabels labels; Title ticker end_date]
      ++ annotation_layer df_display).
End Chart.

(** ** Collaborators: clock, data source, image backend, mail transport *)

Record World : Type := mkWorld {
  (** the clock: seconds since the epoch *)
  utcnow : Z;
  (** [pytz.timezone('America/New_York')]: the offset from UTC, in
      seconds, that is in force at an instant *)
  utcoffset : Z → Z;
  history : string → Timestamp → Timestamp → result DataFrame;
  strftime_b_y : Timestamp → string;
  savefig : Figure → result bytes;
  savefig_file : string → Figure → result unit;
  send_email_with_charts : list (string * bytes) → bool
}.

(** [datetime.now(eastern)]: the instant of the clock on New York's wall
    clock. *)
Definition now (w : World) : Timestamp :=
  mkTimestamp (utcnow w + utcoffset w (utcnow w)) (Some "America/New_York").

(** [t - timedelta(days=n)]: arithmetic on the wall clock; the time zone
    object of [t] stays as it is. *)
Definition minus_days (t : Timestamp) (n : Z) : Timestamp :=
  mkTimestamp (wall t - n * 86400) (tz t).

(** [pd.Timestamp(dt)] for a [dt] made from [datetime.now(eastern)] by
    [timedelta] arithmetic.  The pytz zone object of [dt] is the one of
    [now], with the offset in force at [now]: pandas takes the instant
    that [dt] denotes with that offset and shows it on New York's wall
    clock, with the offset in force at that instant. *)
Definition pd_Timestamp (w : World) (dt : Timestamp) : Timestamp :=
  let instant := (wall dt - utcoffset w (utcnow w))%Z in
  mkTimestamp (instant + utcoffset w instant) (tz dt).

(** [df[df.index >= cutoff].copy()] on naive timestamps. *)
Definition select_from (cutoff : Timestamp) (d : DataFrame) : DataFrame :=
  mkDataFrame (columns d)
    (filter (λ r, (wall cutoff ≤ wall (stamp r))%Z) (rows d)).

Definition localize_index (df : loc) : M unit :=
  d <- deref df ;; (λ h, (Ok tt, <[df := set_index_naive d]> h)).

Definition create_stock_chart_body (w : World) (ticker : string) (months : Z)
    (save_to_file : bool) : M (option bytes) :=
  let end_date := now w in
  let start_date := minus_days end_date (months * 30 + 300) in
  fetched <- lift (history w ticker start_date end_date) ;;
  if df_empty fetched then ret None else
  df <- new (dropna fetched) ;;
  df <- calculate_moving_averages df [50; 200] ;;
  rsi <- calculate_rsi df 14 ;;
  (setitem df "RSI" rsi ;;;
  let display_start := minus_days end_date (months * 30) in
  (localize_index df ;;;
  full <- deref df ;;
  let df_display :=
    select_from (tz_localize_none (pd_Timestamp w display_start)) full in
  if bool_decide (length (rows df_display) = 0) then ret None else
  fig <- lift (draw_chart (strftime_b_y w) ticker end_date df_display) ;;
  ((if save_to_file then lift (savefig_file w ticker fig) else ret tt) ;;;
  buf <- lift (savefig w fig) ;;
  ret (Some buf)))).

(** The [try ... except Exception] around the whole body. *)
Definition create_stock_chart (w : World) (ticker : string) (months : Z)
    (save_to_file : bool) : heap → option bytes * heap :=
  λ h, match create_stock_chart_body w ticker months save_to_file h with
       | (Ok r, h') => (r, h')
       | (Raise _, h') => (None, h')
       end.

(** ** The batch *)

Definition TICKERS : list string :=
  ["XBI"; "HOOD"; "UBER"; "CIBR"; "NLR"; "RKLB"; "COST"; "QQQM"; "SPLG"; "HUMN";
   "KOID"; "GOOGL"; "NVDA"; "RSP"; "PLTR"].

Record Batch : Type := mkBatch {
  charts_data : list (string * bytes);
  successful : list string;
  failed : list string
}.

(** The [for ticker in TICKERS] loop. *)
Fixpoint ticker_loop (w : World) (tickers : list string) (b : Batch) (h : heap)
    : Batch * heap :=
  match tickers with
  | [] => (b, h)
  | ticker :: rest =>
      let '(chart_buffer, h') := create_stock_chart w ticker 6 true h in
      let b' :=
        match chart_buffer with
        | Some buf =>
            mkBatch (charts_data b ++ [(ticker, buf)]) (successful b ++ [ticker]) (failed b)
        | None => mkBatch (charts_data b) (successful b) (failed b ++ [ticker])
        end in
      ticker_loop w rest b' h'
  end.

Definition generate_and_send_charts (w : World) (h : heap) : Z * Batch * heap :=
  let '(b, h') := ticker_loop w TICKERS (mkBatch [] [] []) h in
  let exit_code :=
    match charts_data b with
    | [] => 1%Z
    | _ => if send_email_with_charts w (charts_data b) then 0%Z else 1%Z
    end in
  (exit_code, b, h').

(** ** The mail digest *)

Module Mail.

(** The double-quote character. *)
Definition dq : string := String (Ascii.ascii_of_nat 34) EmptyString.

(** [EMAIL_CONFIG]; the first three entries come from the environment and
    may be absent. *)
Record EmailConfig : Type := mkEmailConfig {
  sender_email : option string;
  sender_password : option string;
  recipient_email : option string;
  smtp_server : string;
  smtp_port : Z
}.

(** Truth value of an optional string: [None] and the empty string are
    false. *)
Definition truthy (s : option string) : bool :=
  match s with
  | Some (String _ _) => true
  | _ => false
  end.

Record Message : Type := mkMessage {
  subject : string;
  from : string;
  to : string;
  parts : list (string * string)
}.

(** One SMTP session: connect, [starttls], [login], [send_message]. *)
Record Session : Type := mkSession {
  host : string;
  port : Z;
  user : string;
  password : string;
  message : Message
}.

(** The clock's two renderings of today, base64 encoding and the mail
    server. *)
Record Services : Type := mkServices {
  today : string;
  today_long : string;
  b64encode : bytes → string;
  smtp : Session → result unit
}.

Definition subject_line (today : string) : string :=
  "Stock Portfolio Charts - "
  +:+ today.

Definition text_body (today_long : string) (charts_data : list (string * bytes))
    : string :=
  "
    Daily Stock Portfolio Update - "
  +:+ today_long
  +:+ "
    
    Your stock charts have been generated for: "
  +:+ String.concat ", " (map fst charts_data)
  +:+ "
    
    Each chart shows daily candlesticks with 50-day (blue) and 200-day (red) moving averages.
    
    Note: If images don't display, you may need to click " +:+ dq +:+ "Download pictures" +:+ dq +:+ " in Outlook.
    ".

Definition html_head (today_long : string) : string :=
  "
    <html>
      <head></head>
      <body style=" +:+ dq +:+ "font-family: Arial, sans-serif;" +:+ dq +:+ ">
        <h2 style=" +:+ dq +:+ "color: #333;" +:+ dq +:+ ">Daily Stock Portfolio Update</h2>
        <p>Here are your stock charts for "
  +:+ today_long
  +:+ ":</p>
        <p style=" +:+ dq +:+ "color: #666;" +:+ dq +:+ ">Each chart shows daily candlesticks with 50-day (blue) and 200-day (red) moving averages.</p>
        <br>
    ".

Definition html_block (ticker encoded : string) : string :=
  "
            <div style=" +:+ dq +:+ "margin-bottom: 40px; page-break-inside: avoid;" +:+ dq +:+ ">
                <h3 style=" +:+ dq +:+ "color: #333; margin-bottom: 10px;" +:+ dq +:+ ">"
  +:+ ticker
  +:+ "</h3>
                <img src=" +:+ dq +:+ "data:image/png;base64,"
  +:+ encoded
  +:+ dq +:+ " 
                     alt=" +:+ dq
  +:+ ticker
  +:+ " Chart" +:+ dq +:+ " 
                     style=" +:+ dq +:+ "max-width: 100%; width: 800px; height: auto; display: block; border: 1px solid #ddd;" +:+ dq +:+ ">
            </div>
            ".

Definition html_tail : string :=
  "
        <br>
        <hr style=" +:+ dq +:+ "border: none; border-top: 1px solid #ddd;" +:+ dq +:+ ">
        <p style=" +:+ dq +:+ "color: gray; font-size: 12px;" +:+ dq +:+ ">
        This is an automated message generated by GitHub Actions. Charts show the last 6 months of daily data.<br>
        If images don't display, you may need to click " +:+ dq +:+ "Download pictures" +:+ dq +:+ " or check your email security settings.
        </p>
      </body>
    </html>
    ".

(** The [for ticker, chart_buffer in charts_data] loop; a buffer object
    is always true. *)
Definition html_body (sv : Services) (charts_data : list (string * bytes)) : string :=
  fold_left
    (λ html_body '(ticker, chart_buffer),
       let encoded := b64encode sv chart_buffer in
       html_body +:+ html_block ticker encoded)
    charts_data (html_head (today_long sv))
  +:+ html_tail.

(** The function, with the sessions opened so far as its state. *)
Definition send_email_with_charts (cfg : EmailConfig) (sv : Services)
    (charts_data : list (string * bytes)) (sessions : list Session)
    : bool * list Session :=
  if negb (truthy (sender_email cfg) && truthy (sender_password cfg)
           && truthy (recipient_email cfg))
  then (false, sessions)
  else
    let msg :=
      mkMessage (subject_line (today sv))
        (default EmptyString (sender_email cfg))
        (default EmptyString (recipient_email cfg))
        [("plain", text_body (today_long sv) charts_data);
         ("html", html_body sv charts_data)] in
    let session :=
      mkSession (smtp_server cfg) (smtp_port cfg)
        (default EmptyString (sender_email cfg))
        (default EmptyString (sender_password cfg)) msg in
    match smtp sv session with
    | Ok _ => (true, sessions ++ [session])
    | Raise _ => (false, sessions ++ [session])
    end.

End Mail.

(** * Vocabulary of the statements *)





(** The arithmetic mean of a list of cells. *)
Definition mean (l : Series) : fnum := fdiv (fsum l) (Fnat (length l)).

(** The frame [calculate_moving_averages] leaves behind, as a function of
    the frame it was given. *)
Fixpoint add_mas (d : DataFrame) (periods : list nat) : DataFrame :=
  match periods with
  | [] => d
  | period :: rest =>
      add_mas (setcol (ma_name period)
                 (rolling_mean period (map (cell "Close") (rows d))) d) rest
  end.

(** The frame [create_stock_chart] holds after lines 68-77: cleaned,
    annotated with MA50, MA200 and RSI, index made naive. *)
Definition annotated (fetched : DataFrame) : DataFrame :=
  let cleaned := add_mas (dropna fetched) [50; 200] in
  set_index_naive
    (setcol "RSI" (rsi_series (map (cell "Close") (rows cleaned)) 14) cleaned).

(** The cutoff of line 78. *)
Definition display_start (w : World) (months : Z) : Timestamp :=
  tz_localize_none (pd_Timestamp w (minus_days (now w) (months * 30))).

(** The frame [df_display] of line 78. *)
Definition display_window (w : World) (months : Z) (fetched : DataFrame)
    : DataFrame :=
  select_from (display_start w months) (annotated fetched).

(** Lines 84-201 for a non-empty display window. *)
Definition render (w : World) (ticker : string) (save_to_file : bool)
    (df_display : DataFrame) : result bytes :=
  fig ← draw_chart (strftime_b_y w) ticker (now w) df_display;
  _ ← (if save_to_file then savefig_file w ticker fig else Ok tt);
  savefig w fig.

(** The columns that chart creation adds to a frame. *)
Definition indicator_columns : list string := ["MA50"; "MA200"; "RSI"].

(** [r'] is the row [r] as chart creation carries it along: same
    timestamp without its zone, same cells outside the indicator columns. *)
Definition carries (r r' : Row) : Prop :=
  stamp r' = tz_localize_none (stamp r)
  ∧ ∀ c, c ∉ indicator_columns → cell c r' = cell c r.

(** The per-ticker results of the batch loop, in processing order. *)
Fixpoint outcomes (w : World) (tickers : list string) (h : heap)
    : list (string * option bytes) :=
  match tickers with
  | [] => []
  | ticker :: rest =>
      let '(chart_buffer, h') := create_stock_chart w ticker 6 true h in
      (ticker, chart_buffer) :: outcomes w rest h'
  end.

Definition charts_of (out : list (string * option bytes)) : list (string * bytes) :=
  omap (λ p, pair p.1 <$> p.2) out.

Definition succeeded (out : list (string * option bytes)) : list string :=
  omap (λ p, match p.2 with Some _ => Some p.1 | None => None end) out.

Definition failures (out : list (string * option bytes)) : list string :=
  omap (λ p, match p.2 with Some _ => None | None => Some p.1 end) out.

(** ** Sample data *)

Definition day (n : Z) : Timestamp :=
  mkTimestamp (n * 86400) (Some "America/New_York").

Definition ohlc (n : Z) (o hi lo c : fnum) : Row :=
  mkRow (day n)
    (list_to_map [("Open", o); ("High", hi); ("Low", lo); ("Close", c)]).

Definition ohlc_columns : list string := ["Open"; "High"; "Low"; "Close"].

(** Three rising days. *)
Definition rising : DataFrame :=
  mkDataFrame ohlc_columns
    [ohlc 0 (F 1) (F 1) (F 1) (F 1);
     ohlc 1 (F 1) (F 2) (F 1) (F 2);
     ohlc 2 (F 2) (F 3) (F 2) (F 3)].

(** Four flat days. *)
Definition flat : DataFrame :=
  mkDataFrame ohlc_columns
    [ohlc 0 (F 1) (F 1) (F 1) (F 1);
     ohlc 1 (F 1) (F 1) (F 1) (F 1);
     ohlc 2 (F 1) (F 1) (F 1) (F 1);
     ohlc 3 (F 1) (F 1) (F 1) (F 1)].

(** Three days, the middle one without a close. *)
Definition gappy : DataFrame :=
  mkDataFrame ohlc_columns
    [ohlc 0 (F 1) (F 1) (F 1) (F 1);
     ohlc 1 (F 1) (F 2) (F 1) NaN;
     ohlc 2 (F 2) (F 3) (F 2) (F 3)].

(** A world at midnight of day 2 in New York, five hours behind UTC all
    along, whose data source has the frame [d] for every ticker but HOOD,
    for which the download fails. *)
Definition world_of (d : DataFrame) : World :=
  mkWorld (2 * 86400 + 18000) (λ _, -18000)%Z
    (λ ticker _ _,
       if bool_decide (ticker = "HOOD")
       then Raise (RuntimeError "download failed")
       else Ok d)
    (λ _, "Jan 70")
    (λ fig, Ok [x2a])
    (λ _ _, Ok tt)
    (λ _, true).

(** New York's offset between November 2022 and March 2024: four hours
    behind UTC from 2023-03-12 07:00 UTC to 2023-11-05 06:00 UTC, five
    hours otherwise. *)
Definition new_york_2023 (instant : Z) : Z :=
  if bool_decide (1678604400 ≤ instant < 1699164000)%Z then -14400 else -18000.

(** Monday 2023-07-10 and Friday 2024-01-05, stamped at midnight. *)
Definition summer : DataFrame :=
  mkDataFrame ohlc_columns
    [ohlc 19548 (F 1) (F 2) (F 1) (F 2);
     ohlc 19727 (F 2) (F 3) (F 2) (F 3)].

(** A run on 2024-01-05 at 23:30 in New York (2024-01-06 04:30 UTC) whose
    data source has the frame [d]. *)
Definition winter_night (d : DataFrame) : World :=
  mkWorld 1704515400 new_york_2023
    (λ _ _ _, Ok d)
    (λ _, "Jan 24")
    (λ fig, Ok [x2a])
    (λ _ _, Ok tt)
    (λ _, true).

(** ** Shapes of a close column *)




(** The rows are in time order: no row is earlier than one before it. *)
Definition time_ordered (rs : list Row) : Prop :=
  StronglySorted (λ r r', (wall (stamp r) ≤ wall (stamp r'))%Z) rs.

(** The computation [m] writes to no object of the store but [df]. *)
Definition touches_only {A} (df : loc) (m : M A) : Prop :=
  ∀ (h : heap) l, l ≠ df → (m h).2 !! l = h !! l.

(** A frame has the four price columns. *)
Definition has_prices (d : DataFrame) : Prop :=
  "Open" ∈ columns d ∧ "High" ∈ columns d ∧ "Low" ∈ columns d
  ∧ "Close" ∈ columns d.

(** Three days without a [High] column. *)
Definition no_high : DataFrame :=
  mkDataFrame ["Open"; "Low"; "Close"]
    [mkRow (day 0) (list_to_map [("Open", F 1); ("Low", F 1); ("Close", F 1)]);
     mkRow (day 1) (list_to_map [("Open", F 1); ("Low", F 1); ("Close", F 2)]);
     mkRow (day 2) (list_to_map [("Open", F 2); ("Low", F 2); ("Close", F 3)])].

(** One day of opens only. *)
Definition opens_only : DataFrame :=
  mkDataFrame ["Open"] [mkRow (day 0) {["Open" := F 1]}].

(** Two days, each with a missing price. *)
Definition all_gaps : DataFrame :=
  mkDataFrame ohlc_columns
    [ohlc 1 NaN (F 2) (F 1) (F 2);
     ohlc 2 (F 2) (F 3) (F 2) NaN].

(** A complete mail configuration and services whose server accepts every
    session. *)
Definition sample_config : Mail.EmailConfig :=
  Mail.mkEmailConfig (Some "me@example.org") (Some "secret")
    (Some "you@example.org") "smtp.gmail.com" 587.

Definition sample_services : Mail.Services :=
  Mail.mkServices "1970-01-03" "January 03, 1970" (λ _, "QUJD") (λ _, Ok tt).

(** * Properties *)

(** Closed goals over decidable data are settled by evaluation. *)
Ltac by_evaluation :=
  lazymatch goal with
  | |- ?P =>
      let dec := constr:(_ : Decision P) in
      apply (@bool_decide_unpack P dec); vm_compute; exact I
  end.

(** ** Basic facts about cells and series *)

Lemma Qc_ltb_true a b : Qc_ltb a b = true ↔ (a < b)%Qc.
Proof. unfold Qc_ltb. apply bool_decide_eq_true. Qed.

Lemma Qc_eqb_true a b : Qc_eqb a b = true ↔ a = b.
Proof. unfold Qc_eqb. apply bool_decide_eq_true. Qed.

Lemma Qc_ltb_irrefl a : Qc_ltb a a = false.
Proof.
  unfold Qc_ltb. apply bool_decide_eq_false. apply Qcle_not_lt, Qcle_refl.
Qed.

Lemma Qc_ltb_asym a b : Qc_ltb a b = true → Qc_ltb b a = false.
Proof.
  rewrite Qc_ltb_true. intros H. apply bool_decide_eq_false.
  apply Qcle_not_lt, Qclt_le_weak, H.
Qed.

Lemma at_pos_lookup (s : Series) i x : s !! i = Some x → at_pos s i = x.
Proof. intros H. unfold at_pos. by apply nth_lookup_Some with (d := NaN) in H. Qed.

Lemma at_pos_ge (s : Series) i : length s ≤ i → at_pos s i = NaN.
Proof. intros H. unfold at_pos. by apply nth_overflow. Qed.

Lemma at_pos_map {A} (f : A → fnum) (l : list A) (a : A) i :
  i < length l → at_pos (map f l) i = f (nth i l a).
Proof.
  intros H. unfold at_pos.
  rewrite (nth_indep _ NaN (f a)) by (by rewrite length_map).
  apply map_nth.
Qed.

Lemma at_pos_zip_with (f : fnum → fnum → fnum) (a b : Series) i :
  i < length a → i < length b →
  at_pos (zip_with f a b) i = f (at_pos a i) (at_pos b i).
Proof.
  intros Ha Hb.
  destruct (lookup_lt_is_Some_2 a i Ha) as [x Hx].
  destruct (lookup_lt_is_Some_2 b i Hb) as [y Hy].
  rewrite (at_pos_lookup a i x Hx), (at_pos_lookup b i y Hy).
  apply at_pos_lookup. rewrite lookup_zip_with, Hx. simpl. by rewrite Hy.
Qed.

Lemma length_diff (s : Series) : length (diff s) = length s.
Proof.
  destruct s as [|x t]; [done|]. simpl. rewrite length_zip_with. f_equal.
  simpl. lia.
Qed.

Lemma length_rolling_mean w (s : Series) : length (rolling_mean w s) = length s.
Proof. unfold rolling_mean. by rewrite length_map, length_seq. Qed.

Lemma at_pos_rolling_mean w (s : Series) i :
  i < length s → at_pos (rolling_mean w s) i = rolling_mean_at w s i.
Proof.
  intros H. unfold rolling_mean.
  rewrite (at_pos_map _ _ 0) by (by rewrite length_seq).
  by rewrite seq_nth.
Qed.

Lemma length_rsi_gain close period : length (rsi_gain close period) = length close.
Proof.
  unfold rsi_gain, where_. by rewrite length_rolling_mean, length_map, length_diff.
Qed.

Lemma length_rsi_loss close period : length (rsi_loss close period) = length close.
Proof.
  unfold rsi_loss, neg, where_.
  by rewrite length_rolling_mean, !length_map, length_diff.
Qed.

Lemma length_rsi_series close period :
  length (rsi_series close period) = length close.
Proof.
  unfold rsi_series.
  rewrite length_zip_with, length_rsi_gain, length_rsi_loss. lia.
Qed.

Lemma at_pos_rsi_series close period i :
  i < length close →
  at_pos (rsi_series close period) i
  = rsi_of (at_pos (rsi_gain close period) i) (at_pos (rsi_loss close period) i).
Proof.
  intros H. unfold rsi_series. apply at_pos_zip_with.
  - by rewrite length_rsi_gain.
  - by rewrite length_rsi_loss.
Qed.

(** ** The store operations *)

Lemma getitem_spec (h : heap) df d name :
  h !! df = Some d → getitem df name h = (getcol name d, h).
Proof. intros H. unfold getitem, bind, deref, lift. by rewrite H. Qed.

Lemma setitem_spec (h : heap) df d name s :
  h !! df = Some d → setitem df name s h = (Ok tt, <[df := setcol name s d]> h).
Proof. intros H. unfold setitem, bind, deref. by rewrite H. Qed.

Lemma calculate_rsi_spec (h : heap) data d close period :
  h !! data = Some d → getcol "Close" d = Ok close →
  calculate_rsi data period h = (Ok (rsi_series close period), h).
Proof.
  intros Hd Hc. unfold calculate_rsi, bind.
  by rewrite (getitem_spec h data d), Hc.
Qed.

(** ** RSI at the edges *)

Lemma Q100_minus_0 : (Q2Qc (inject_Z 100) + - 0)%Qc = Q2Qc (inject_Z 100).
Proof. apply Qc_is_canon. reflexivity. Qed.

Lemma rsi_of_saturates g : fgt g (F 0) = true → rsi_of g (F 0) = F 100.
Proof.
  destruct g as [q|[|]|]; simpl; try discriminate.
  - intros Hq. unfold rsi_of, fdiv, F.
    change (Q2Qc (inject_Z 0)) with (Q2Qc 0) in *.
    replace (Qc_eqb (Q2Qc 0) 0) with true by done.
    replace (Qc_eqb q 0) with false.
    2:{ symmetry. apply bool_decide_eq_false. intros ->.
        by rewrite Qc_ltb_irrefl in Hq. }
    rewrite (Qc_ltb_asym _ _ Hq). simpl. unfold fsub. simpl.
    by rewrite Q100_minus_0.
  - intros _. unfold rsi_of, fsub. simpl. by rewrite Q100_minus_0.
Qed.

Lemma rsi_of_flat : rsi_of (F 0) (F 0) = NaN.
Proof. reflexivity. Qed.

(** C1. At every position of the series returned by [calculate_rsi]: when
    the trailing mean of the losses is 0 and the trailing mean of the gains
    is positive, the value is exactly 100; when both trailing means are 0
    (flat price over the window), the value is absent (NaN). *)
Theorem calculate_rsi_edge_cases (h : heap) (data : loc) (d : DataFrame)
    (close : Series) (period i : nat) :
  h !! data = Some d →
  getcol "Close" d = Ok close →
  calculate_rsi data period h = (Ok (rsi_series close period), h)
  ∧ (at_pos (rsi_loss close period) i = F 0 →
     fgt (at_pos (rsi_gain close period) i) (F 0) = true →
     at_pos (rsi_series close period) i = F 100)
  ∧ (at_pos (rsi_gain close period) i = F 0 →
     at_pos (rsi_loss close period) i = F 0 →
     at_pos (rsi_series close period) i = NaN).
Proof.
  intros Hd Hc. split; [by eapply calculate_rsi_spec|].
  assert (Hin : at_pos (rsi_loss close period) i = F 0 → i < length close).
  { intros H0. destruct (decide (i < length close)) as [|Hge]; [done|].
    rewrite at_pos_ge in H0 by (rewrite length_rsi_loss; lia). discriminate. }
  split.
  - intros Hl Hg. rewrite at_pos_rsi_series by auto.
    rewrite Hl. by apply rsi_of_saturates.
  - intros Hg Hl. rewrite at_pos_rsi_series by auto.
    rewrite Hg, Hl. apply rsi_of_flat.
Qed.

Lemma calculate_rsi_edge_cases_witness :
  at_pos (rsi_series [F 1; F 2; F 3] 2) 1 = F 100
  ∧ at_pos (rsi_series [F 1; F 1; F 1; F 1] 2) 2 = NaN.
Proof.
  split.
  - refine (proj1 (proj2 (calculate_rsi_edge_cases {[0 := rising]} 0 rising
                            [F 1; F 2; F 3] 2 1 _ _)) _ _).
    + by_evaluation.
    + by_evaluation.
    + by_evaluation.
    + vm_compute. reflexivity.
  - refine (proj2 (proj2 (calculate_rsi_edge_cases {[0 := flat]} 0 flat
                            [F 1; F 1; F 1; F 1] 2 2 _ _)) _ _).
    + by_evaluation.
    + by_evaluation.
    + by_evaluation.
    + by_evaluation.
Defined.

(** ** Trailing windows and rolling means *)



Lemma filter_all {A} (P : A → Prop) `{∀ x, Decision (P x)} (l : list A) :
  Forall P l → filter P l = l.
Proof.
  induction 1 as [|x l Hx _ IH]; [done|].
  by rewrite filter_cons_True, IH.
Qed.

Lemma length_window w (s : Series) i :
  i < length s → length (window w s i) = S i `min` w.
Proof. intros H. unfold window. rewrite length_drop, length_take. lia. Qed.



Lemma rolling_mean_at_warmup w (s : Series) i :
  S i < w → rolling_mean_at w s i = NaN.
Proof.
  intros H. unfold rolling_mean_at.
  set (obs := filter _ _).
  assert (length obs < w) as Hlt.
  { unfold obs. eapply Nat.le_lt_trans; [apply length_filter|].
    unfold window. rewrite length_drop, length_take. lia. }
  by rewrite bool_decide_eq_false_2 by lia.
Qed.

Lemma rolling_mean_at_full w (s : Series) i :
  1 ≤ w → w ≤ S i → i < length s →
  Forall (λ x, isfinite x = true) (window w s i) →
  rolling_mean_at w s i = fdiv (fsum (window w s i)) (Fnat w).
Proof.
  intros Hw Hi Hlen Hfin. unfold rolling_mean_at.
  rewrite (filter_all _ _ Hfin), (length_window w s i Hlen).
  replace (S i `min` w) with w by lia.
  by rewrite !bool_decide_eq_true_2 by lia.
Qed.





(** ** Gains and losses of a close column *)











(** ** Columns of a frame *)

Lemma cell_set_cell_ne name c v r : name ≠ c → cell c (set_cell name v r) = cell c r.
Proof. intros H. unfold cell, set_cell. simpl. by rewrite lookup_insert_ne. Qed.

Lemma cell_set_cell_eq name v r : cell name (set_cell name v r) = v.
Proof. unfold cell, set_cell. simpl. by rewrite lookup_insert_eq. Qed.

Lemma length_rows_setcol name s d : length (rows (setcol name s d)) = length (rows d).
Proof. simpl. apply length_imap. Qed.

Lemma stamps_setcol name s d :
  map stamp (rows (setcol name s d)) = map stamp (rows d).
Proof.
  simpl. change (map ?f ?l) with (f <$> l). rewrite fmap_imap.
  apply list_eq. intros i. rewrite list_lookup_imap, list_lookup_fmap.
  by destruct (rows d !! i).
Qed.

Lemma elem_of_columns_setcol name s d c :
  c ∈ columns (setcol name s d) ↔ c ∈ columns d ∨ c = name.
Proof.
  simpl. case_bool_decide as Hin.
  - split; [by left|]. by intros [?| ->].
  - rewrite elem_of_app, list_elem_of_singleton. done.
Qed.

Lemma map_cell_setcol_ne name s d c :
  name ≠ c → map (cell c) (rows (setcol name s d)) = map (cell c) (rows d).
Proof.
  intros Hne. simpl. change (map ?f ?l) with (f <$> l). rewrite fmap_imap.
  apply list_eq. intros i. rewrite list_lookup_imap, list_lookup_fmap.
  destruct (rows d !! i); simpl; [|done]. by rewrite cell_set_cell_ne.
Qed.

Lemma map_cell_setcol_eq name s d :
  length s = length (rows d) → map (cell name) (rows (setcol name s d)) = s.
Proof.
  intros Hlen. simpl. change (map ?f ?l) with (f <$> l). rewrite fmap_imap.
  apply list_eq. intros i. rewrite list_lookup_imap.
  destruct (rows d !! i) as [r|] eqn:Hr; simpl.
  - rewrite cell_set_cell_eq.
    destruct (lookup_lt_is_Some_2 s i) as [x Hx].
    { rewrite Hlen. by eapply lookup_lt_Some. }
    by rewrite Hx, (at_pos_lookup _ _ _ Hx).
  - symmetry. apply lookup_ge_None. rewrite Hlen. by apply lookup_ge_None.
Qed.

Lemma getcol_setcol_ne name s d c :
  name ≠ c → getcol c (setcol name s d) = getcol c d.
Proof.
  intros Hne. unfold getcol. rewrite map_cell_setcol_ne by done.
  rewrite (bool_decide_ext (c ∈ columns (setcol name s d)) (c ∈ columns d));
    [done|].
  rewrite elem_of_columns_setcol. split; [|by left].
  intros [?|E]; [done|]. by destruct Hne.
Qed.

Lemma getcol_setcol_eq name s d :
  length s = length (rows d) → getcol name (setcol name s d) = Ok s.
Proof.
  intros Hlen. unfold getcol. rewrite map_cell_setcol_eq by done.
  rewrite bool_decide_eq_true_2; [done|].
  apply elem_of_columns_setcol. by right.
Qed.

Lemma getcol_Ok name d s :
  getcol name d = Ok s ↔ name ∈ columns d ∧ s = map (cell name) (rows d).
Proof.
  unfold getcol. case_bool_decide as Hin; split.
  - by intros [= <-].
  - by intros [_ ->].
  - done.
  - by intros [? _].
Qed.

Lemma ma_name_not_Close period : ma_name period ≠ "Close".
Proof. unfold ma_name. simpl. discriminate. Qed.

Lemma ma_name_inj p q : ma_name p = ma_name q → p = q.
Proof.
  unfold ma_name. simpl. intros H. injection H as H. by apply (inj pretty).
Qed.

(** ** calculate_moving_averages *)

Lemma Close_add_mas d periods :
  map (cell "Close") (rows (add_mas d periods)) = map (cell "Close") (rows d).
Proof.
  revert d. induction periods as [|p rest IH]; intros d; [done|]. simpl.
  rewrite IH. apply map_cell_setcol_ne, ma_name_not_Close.
Qed.

Lemma stamps_add_mas d periods :
  map stamp (rows (add_mas d periods)) = map stamp (rows d).
Proof.
  revert d. induction periods as [|p rest IH]; intros d; [done|]. simpl.
  rewrite IH. apply stamps_setcol.
Qed.

Lemma elem_of_columns_add_mas c d periods :
  c ∈ columns (add_mas d periods)
  ↔ c ∈ columns d ∨ ∃ p, p ∈ periods ∧ c = ma_name p.
Proof.
  revert d. induction periods as [|p rest IH]; intros d; simpl.
  - split; [by left|]. intros [?|(p & Hp & _)]; [done|]. by apply elem_of_nil in Hp.
  - rewrite IH, elem_of_columns_setcol. split.
    + intros [[?| ->]|(q & Hq & ->)]; [by left|right..].
      * exists p. split; [left|done].
      * exists q. split; [by right|done].
    + intros [?|(q & Hq & ->)]; [by left; left|].
      apply elem_of_cons in Hq as [->|Hq]; [by left; right|].
      right. by exists q.
Qed.

Lemma getcol_add_mas_other c d periods :
  (∀ p, p ∈ periods → c ≠ ma_name p) →
  getcol c (add_mas d periods) = getcol c d.
Proof.
  revert d. induction periods as [|p rest IH]; intros d Hc; [done|]. simpl.
  rewrite IH by (intros q Hq; apply Hc; by right).
  apply getcol_setcol_ne. intros E. apply (Hc p); [left|done].
Qed.

Lemma getcol_add_mas_ma d periods p :
  p ∈ periods →
  getcol (ma_name p) (add_mas d periods)
  = Ok (rolling_mean p (map (cell "Close") (rows d))).
Proof.
  revert d. induction periods as [|q rest IH]; intros d Hp.
  { by apply elem_of_nil in Hp. }
  simpl. destruct (decide (p ∈ rest)) as [Hin|Hout].
  - rewrite IH by done. f_equal. f_equal.
    apply map_cell_setcol_ne, ma_name_not_Close.
  - apply elem_of_cons in Hp as [->|?]; [|done].
    rewrite getcol_add_mas_other.
    + apply getcol_setcol_eq. by rewrite length_rolling_mean, length_map.
    + intros p Hp E. apply ma_name_inj in E. by subst.
Qed.

Lemma ma_loop_spec (h : heap) df d periods :
  h !! df = Some d → "Close" ∈ columns d →
  ma_loop df periods h = (Ok tt, <[df := add_mas d periods]> h).
Proof.
  revert d h. induction periods as [|p rest IH]; intros d h Hd Hc; simpl.
  - unfold ret. by rewrite insert_id.
  - unfold bind at 1. rewrite (getitem_spec h df d) by done.
    unfold getcol. rewrite bool_decide_eq_true_2 by done.
    unfold bind at 1. rewrite (setitem_spec h df d) by done.
    erewrite IH; [by rewrite insert_insert_eq|by rewrite lookup_insert_eq|].
    apply elem_of_columns_setcol. by left.
Qed.

Lemma calculate_moving_averages_spec (h : heap) df d periods :
  h !! df = Some d → "Close" ∈ columns d →
  calculate_moving_averages df periods h
  = (Ok df, <[df := add_mas d periods]> h).
Proof.
  intros Hd Hc. unfold calculate_moving_averages, bind.
  by rewrite (ma_loop_spec h df d).
Qed.

Lemma window_prefix w (s : Series) : 1 ≤ w → window w s (w - 1) = take w s.
Proof.
  intros H. unfold window. replace (S (w - 1)) with w by lia.
  by rewrite Nat.sub_diag.
Qed.

Lemma fsum_na (l : Series) : NaN ∈ l → fsum l = NaN.
Proof.
  induction l as [|x l IH]; intros H; [by apply elem_of_nil in H|].
  simpl. apply elem_of_cons in H as [<-|H]; [done|].
  rewrite IH by done. by destruct x.
Qed.

Lemma rolling_mean_at_prefix w (s : Series) :
  1 ≤ w → w ≤ length s → Forall (λ x, isinf x = false) s →
  rolling_mean_at w s (w - 1) = mean (take w s).
Proof.
  intros Hw Hlen Hinf.
  destruct (decide (NaN ∈ take w s)) as [Hna|Hna].
  - unfold mean. rewrite fsum_na by done. simpl.
    unfold rolling_mean_at. rewrite window_prefix by done.
    assert (length (filter (λ x, isfinite x = true) (take w s)) < w) as Hlt.
    { rewrite <- (length_take_le s w) at 2 by done.
      by apply (length_filter_lt _ _ NaN). }
    by rewrite bool_decide_eq_false_2 by lia.
  - rewrite rolling_mean_at_full; [|lia..|].
    + rewrite window_prefix by done. unfold mean.
      by rewrite length_take_le by done.
    + rewrite window_prefix by done.
      apply Forall_forall. intros x Hx.
      assert (isinf x = false) as Hx'.
      { apply (Forall_take _ w) in Hinf. rewrite Forall_forall in Hinf. auto. }
      destruct x; [done|done|by destruct Hna].
Qed.

(** C3. For a price series (closes without infinities) with at least
    [period] points, the column [MA{period}] written by
    [calculate_moving_averages] is as long as the series, absent at the
    first [period - 1] positions, and at position [period - 1] it is the
    arithmetic mean of the first [period] closes; this holds for each of
    the periods passed, whatever the others are. *)
Theorem calculate_moving_averages_columns (h : heap) (df : loc) (d : DataFrame)
    (close : Series) (periods : list nat) (period : nat) :
  h !! df = Some d →
  getcol "Close" d = Ok close →
  Forall (λ x, isinf x = false) close →
  period ∈ periods → 1 ≤ period → period ≤ length close →
  ∃ d' ma,
    calculate_moving_averages df periods h = (Ok df, <[df := d']> h)
    ∧ getcol (ma_name period) d' = Ok ma
    ∧ length ma = length close
    ∧ (∀ i, i < period - 1 → at_pos ma i = NaN)
    ∧ at_pos ma (period - 1) = mean (take period close).
Proof.
  intros Hd Hc Hfin Hin Hp Hlen.
  apply getcol_Ok in Hc as [Hc ->].
  exists (add_mas d periods), (rolling_mean period (map (cell "Close") (rows d))).
  split; [by apply calculate_moving_averages_spec|].
  split; [by apply getcol_add_mas_ma|].
  split; [apply length_rolling_mean|]. split.
  - intros i Hi. rewrite at_pos_rolling_mean by lia.
    apply rolling_mean_at_warmup. lia.
  - rewrite at_pos_rolling_mean by lia. by apply rolling_mean_at_prefix.
Qed.

Lemma calculate_moving_averages_columns_witness :
  ∃ d' ma,
    calculate_moving_averages 0 [2; 3] {[0 := rising]}
    = (Ok 0, <[0 := d']> {[0 := rising]})
    ∧ getcol "MA2" d' = Ok ma
    ∧ length ma = 3
    ∧ (∀ i, i < 1 → at_pos ma i = NaN)
    ∧ at_pos ma 1 = mean [F 1; F 2].
Proof.
  apply (calculate_moving_averages_columns {[0 := rising]} 0 rising
           [F 1; F 2; F 3] [2; 3] 2).
  - by_evaluation.
  - by_evaluation.
  - by repeat constructor.
  - by_evaluation.
  - lia.
  - simpl. lia.
Defined.

(** ** Effects of the indicator functions on the store *)

Lemma calculate_rsi_store (h : heap) data period :
  (calculate_rsi data period h).2 = h.
Proof.
  unfold calculate_rsi, getitem, bind, deref, lift, ret.
  destruct (h !! data) as [d|]; [|done]. by destruct (getcol "Close" d).
Qed.

(** C9 (amended). [calculate_rsi] leaves the store, and so its input, as
    it was.  [calculate_moving_averages] works in place: it returns the
    very object it was given, to which it has added (or in which it has
    overwritten) one column [MA{p}] per period [p]; the index, every other
    column and every other object are unchanged. *)
Theorem indicator_engine_effects (h : heap) (df : loc) (d : DataFrame)
    (periods : list nat) (period : nat) :
  h !! df = Some d →
  "Close" ∈ columns d →
  (calculate_rsi df period h).2 = h
  ∧ ∃ d',
      calculate_moving_averages df periods h = (Ok df, <[df := d']> h)
      ∧ map stamp (rows d') = map stamp (rows d)
      ∧ (∀ c, c ∈ columns d' ↔ c ∈ columns d ∨ ∃ p, p ∈ periods ∧ c = ma_name p)
      ∧ (∀ p, p ∈ periods →
           getcol (ma_name p) d'
           = Ok (rolling_mean p (map (cell "Close") (rows d))))
      ∧ (∀ c, (∀ p, p ∈ periods → c ≠ ma_name p) → getcol c d' = getcol c d).
Proof.
  intros Hd Hc. split; [apply calculate_rsi_store|].
  exists (add_mas d periods).
  split; [by apply calculate_moving_averages_spec|].
  split; [apply stamps_add_mas|].
  split; [intros c; apply elem_of_columns_add_mas|].
  split; [intros p; apply getcol_add_mas_ma|].
  intros c; apply getcol_add_mas_other.
Qed.

Lemma indicator_engine_effects_witness :
  (calculate_rsi 0 14 {[0 := rising]}).2 = {[0 := rising]}
  ∧ ∃ d',
      calculate_moving_averages 0 [2] {[0 := rising]}
      = (Ok 0, <[0 := d']> {[0 := rising]})
      ∧ getcol "MA2" d' = Ok (rolling_mean 2 [F 1; F 2; F 3])
      ∧ getcol "Open" d' = getcol "Open" rising.
Proof.
  destruct (indicator_engine_effects {[0 := rising]} 0 rising [2] 14)
    as (Hrsi & d' & Hma & _ & _ & Hnew & Hold).
  - by_evaluation.
  - by_evaluation.
  - split; [exact Hrsi|]. exists d'. split; [exact Hma|]. split.
    + apply (Hnew 2). by_evaluation.
    + apply Hold. intros p _. unfold ma_name. simpl. discriminate.
Defined.

(** C9 fails as stated: after [calculate_moving_averages] the input frame
    has a column it did not have before. *)
Lemma indicator_engine_effects_counterexample :
  ({[0 := rising]} : heap) !! 0 = Some rising
  ∧ columns rising = ["Open"; "High"; "Low"; "Close"]
  ∧ columns <$> (calculate_moving_averages 0 [2] {[0 := rising]}).2 !! 0
    = Some ["Open"; "High"; "Low"; "Close"; "MA2"]
  ∧ (calculate_moving_averages 0 [2] {[0 := rising]}).2 !! 0 ≠ Some rising.
Proof.
  split; [by_evaluation|]. split; [done|]. split; [by_evaluation|].
  intros H. apply (f_equal (fmap columns)) in H. revert H.
  assert (columns <$> (calculate_moving_averages 0 [2] {[0 := rising]}).2 !! 0
          = Some ["Open"; "High"; "Low"; "Close"; "MA2"]) as -> by by_evaluation.
  discriminate.
Qed.

(** ** The price annotation *)

Lemma feq_zero x : feq x (F 0) = true ↔ x = F 0.
Proof.
  destruct x as [q| |]; simpl; [|done..]. rewrite Qc_eqb_true.
  split; [by intros ->|]. by intros [= ->].
Qed.

Lemma fne_zero x : fne x (F 0) = true ↔ x ≠ F 0.
Proof.
  unfold fne. rewrite negb_true_iff, <- not_true_iff_false. by rewrite feq_zero.
Qed.

Lemma price_annotation_pair (close : Series) cur prev :
  2 ≤ length close →
  at_pos close (length close - 1) = cur →
  at_pos close (length close - 2) = prev →
  price_annotation close
  = Ok (cur, fsub cur prev,
        if fne prev (F 0) then fmul (fdiv (fsub cur prev) prev) (F 100) else F 0).
Proof.
  intros Hlen <- <-. unfold price_annotation, iloc_back.
  rewrite !bool_decide_eq_true_2 by lia. simpl.
  destruct (fne _ (F 0)) eqn:Hne; [|done].
  unfold py_div. unfold fne in Hne. apply negb_true_iff in Hne.
  by rewrite Hne.
Qed.

(** C8. In the price annotation of a display window: with a single point
    the change and the percentage change are both 0; with at least two
    points the change is latest close minus previous close, and the
    percentage change is 0 when the previous close is exactly 0 and
    change / previous close * 100 otherwise; the division never raises
    [ZeroDivisionError]. *)
Theorem price_annotation_change (d : DataFrame) (close : Series) :
  getcol "Close" d = Ok close →
  (∀ x, close = [x] → annotation_layer d = [PriceText x (F 0) (F 0)])
  ∧ (∀ cur prev,
       2 ≤ length close →
       at_pos close (length close - 1) = cur →
       at_pos close (length close - 2) = prev →
       (prev = F 0 →
          annotation_layer d = [PriceText cur (fsub cur prev) (F 0)])
       ∧ (prev ≠ F 0 →
          annotation_layer d
          = [PriceText cur (fsub cur prev)
               (fmul (fdiv (fsub cur prev) prev) (F 100))]))
  ∧ price_annotation close ≠ Raise ZeroDivisionError.
Proof.
  intros Hc. unfold annotation_layer. rewrite Hc. simpl.
  split; [by intros x ->|]. split.
  - intros cur prev Hlen Hcur Hprev.
    rewrite (price_annotation_pair close cur prev) by done. split.
    + intros ->. done.
    + intros Hne. by rewrite (proj2 (fne_zero prev) Hne).
  - destruct (decide (2 ≤ length close)) as [Hlen|Hlen].
    + by erewrite price_annotation_pair.
    + destruct close as [|x [|y t]]; [done|done|simpl in Hlen; lia].
Qed.

Lemma price_annotation_change_witness :
  annotation_layer rising = [PriceText (F 3) (fsub (F 3) (F 2))
                               (fmul (fdiv (fsub (F 3) (F 2)) (F 2)) (F 100))]
  ∧ price_annotation [F 1; F 2; F 3] ≠ Raise ZeroDivisionError.
Proof.
  destruct (price_annotation_change rising [F 1; F 2; F 3]) as (_ & H & Hz).
  - by_evaluation.
  - split; [|exact Hz].
    apply (H (F 3) (F 2)); [simpl; lia|reflexivity|reflexivity|].
    intros E. apply (f_equal (λ x, feq x (F 0))) in E. vm_compute in E.
    discriminate.
Defined.

(** ** The tick positions *)

(** C6 (the code departs from the claim). The number of tick positions is
    not bounded by 6: a window of 7 points gets 7 ticks, one of 11 points
    gets 11, and a six-month window of 125 points gets 7. *)
Theorem x_ticks_exceed_six :
  x_ticks 7 = Ok [0; 1; 2; 3; 4; 5; 6]
  ∧ x_ticks 11 = Ok [0; 1; 2; 3; 4; 5; 6; 7; 8; 9; 10]
  ∧ x_ticks 125 = Ok [0; 20; 40; 60; 80; 100; 120].
Proof. repeat split; reflexivity. Qed.

(** ** Candlesticks *)

Lemma Qc_minus_zero a b : (b + - a)%Qc = 0%Qc ↔ a = b.
Proof.
  split.
  - intros H. assert (b = b + - a + a)%Qc as -> by ring.
    by rewrite H, Qcplus_0_l.
  - intros ->. ring.
Qed.

Lemma Qc_abs_pos x : x ≠ 0%Qc → (0 < (if Qc_ltb x 0 then - x else x))%Qc.
Proof.
  intros Hx. destruct (Qc_ltb x 0) eqn:E.
  - apply Qc_ltb_true, Qclt_minus_iff in E. by rewrite Qcplus_0_l in E.
  - apply bool_decide_eq_false, Qcnot_lt_le in E.
    destruct (Qcle_lt_or_eq _ _ E) as [|Heq]; [done|]. by destruct Hx.
Qed.

Lemma candle_height_pos o c :
  notna o = true → notna c = true →
  fgt (fabs (fsub c o)) (F 0) = true ↔ o ≠ c.
Proof.
  destruct o as [a|s|], c as [b|t|]; try done; intros _ _.
  - change (fsub (Num b) (Num a)) with (Num (b + - a)). simpl.
    change (Q2Qc (inject_Z 0)) with 0%Qc. rewrite Qc_ltb_true. split.
    + intros H [= ->]. rewrite (proj2 (Qc_minus_zero b b) eq_refl) in H.
      rewrite Qc_ltb_irrefl in H. by apply Qclt_not_eq in H.
    + intros H. apply Qc_abs_pos. rewrite Qc_minus_zero. congruence.
  - by destruct s, t.
Qed.

Lemma candle_colour o c :
  notna o = true → notna c = true → o ≠ c →
  fge c o = fge (fsub c o) (F 0).
Proof.
  destruct o as [a|s|], c as [b|t|]; try done; intros _ _ Hne.
  - change (fsub (Num b) (Num a)) with (Num (b + - a)). unfold fge, flt, feq, F.
    change (Q2Qc (inject_Z 0)) with 0%Qc.
    assert (a ≠ b) as Hab by congruence.
    unfold Qc_eqb, Qc_ltb.
    rewrite (bool_decide_eq_false_2 (b = a)) by congruence.
    rewrite (bool_decide_eq_false_2 (b + - a = 0)%Qc)
      by (by rewrite Qc_minus_zero).
    rewrite !orb_false_r. apply bool_decide_ext, Qclt_minus_iff.
  - by destruct s.
  - by destruct s, t.
Qed.

Lemma candle_top a b :
  a ≠ b →
  fadd (fmin (Num b) (Num a)) (fabs (fsub (Num b) (Num a)))
  = fmax (Num b) (Num a).
Proof.
  intros Hne. change (fsub (Num b) (Num a)) with (Num (b + - a)).
  unfold fmin, fmax, flt, fabs.
  destruct (Qc_dec a b) as [[Hlt|Hgt]|Heq]; [| |done].
  - rewrite (proj2 (Qc_ltb_true _ _) Hlt), (Qc_ltb_asym _ _ (proj2 (Qc_ltb_true _ _) Hlt)).
    replace (Qc_ltb (b + - a) 0) with false.
    2:{ symmetry. apply bool_decide_eq_false, Qcle_not_lt.
        by apply (proj1 (Qcle_minus_iff a b)), Qclt_le_weak. }
    simpl. f_equal. ring.
  - rewrite (proj2 (Qc_ltb_true _ _) Hgt), (Qc_ltb_asym _ _ (proj2 (Qc_ltb_true _ _) Hgt)).
    replace (Qc_ltb (b + - a) 0) with true.
    2:{ symmetry. apply Qc_ltb_true, (proj2 (Qclt_minus_iff (b + - a) 0)).
        apply (proj1 (Qclt_minus_iff b a)) in Hgt.
        assert (0 + - (b + - a) = a + - b)%Qc as -> by ring. done. }
    simpl. f_equal. ring.
Qed.

Lemma candlestick_spec cols idx r o c hi lo :
  row_item cols r "Open" = Ok o → row_item cols r "Close" = Ok c →
  row_item cols r "High" = Ok hi → row_item cols r "Low" = Ok lo →
  notna o = true → notna c = true →
  (o = c →
     candlestick cols idx r
     = Ok [Plot Price [Fnat idx; Fnat idx] [lo; hi] "black";
           Plot Price [fsub (Fnat idx) (Fq (3 # 10)); fadd (Fnat idx) (Fq (3 # 10))]
                [c; c] "black"])
  ∧ (o ≠ c →
     candlestick cols idx r
     = Ok [Plot Price [Fnat idx; Fnat idx] [lo; hi] "black";
           Bar idx (fabs (fsub c o)) (fmin c o)
               (if fge (fsub c o) (F 0) then "g" else "r")]).
Proof.
  intros Ho Hc Hhi Hlo Hno Hnc.
  assert (candlestick cols idx r
          = if fgt (fabs (fsub c o)) (F 0)
            then Ok [Plot Price [Fnat idx; Fnat idx] [lo; hi] "black";
                     Bar idx (fabs (fsub c o)) (fmin c o)
                         (if fge c o then "g" else "r")]
            else Ok [Plot Price [Fnat idx; Fnat idx] [lo; hi] "black";
                     Plot Price [fsub (Fnat idx) (Fq (3 # 10));
                                 fadd (Fnat idx) (Fq (3 # 10))]
                          [c; c] "black"]) as ->.
  { unfold candlestick. by rewrite Ho, Hc, Hhi, Hlo. }
  pose proof (candle_height_pos o c Hno Hnc) as Hh. split.
  - intros Heq. destruct (fgt (fabs (fsub c o)) (F 0)) eqn:E; [|done].
    by destruct (proj1 Hh).
  - intros Hne. rewrite (proj2 Hh Hne). by rewrite candle_colour.
Qed.

(** ** The chart pipeline *)

Lemma create_stock_chart_body_spec (w : World) ticker months save (h : heap) fetched :
  history w ticker (minus_days (now w) (months * 30 + 300)) (now w) = Ok fetched →
  df_empty fetched = false →
  "Close" ∈ columns fetched →
  create_stock_chart_body w ticker months save h
  = (if bool_decide (length (rows (display_window w months fetched)) = 0)
     then Ok None
     else match render w ticker save (display_window w months fetched) with
          | Ok buf => Ok (Some buf)
          | Raise e => Raise e
          end,
     <[fresh (dom h) := annotated fetched]> h).
Proof.
  intros Hfetch Hne Hclose. unfold create_stock_chart_body.
  unfold bind at 1. unfold lift at 1. rewrite Hfetch, Hne.
  unfold bind at 1. unfold new at 1.
  set (l := fresh (dom h)). set (h1 := <[l := dropna fetched]> h).
  unfold bind at 1.
  rewrite (calculate_moving_averages_spec h1 l (dropna fetched));
    [|by apply lookup_insert_eq|done].
  set (cleaned := add_mas (dropna fetched) [50; 200]).
  assert ("Close" ∈ columns cleaned) as Hcc.
  { apply elem_of_columns_add_mas. by left. }
  unfold bind at 1.
  rewrite (calculate_rsi_spec _ l cleaned (map (cell "Close") (rows cleaned)));
    [|by apply lookup_insert_eq|].
  2:{ unfold getcol. by rewrite bool_decide_eq_true_2. }
  unfold bind at 1.
  rewrite (setitem_spec _ l cleaned) by apply lookup_insert_eq.
  unfold bind at 1. unfold localize_index, bind at 1, deref at 1.
  rewrite lookup_insert_eq.
  unfold bind at 1, deref at 1. rewrite lookup_insert_eq.
  fold (display_start w months).
  unfold h1. rewrite !insert_insert_eq.
  change (set_index_naive (setcol "RSI" _ cleaned)) with (annotated fetched).
  change (select_from (display_start w months) (annotated fetched))
    with (display_window w months fetched).
  case_bool_decide; [done|].
  unfold render, bind, lift, ret.
  destruct (draw_chart _ _ _ _) as [fig|e]; [|done]. simpl.
  destruct save; simpl.
  - destruct (savefig_file w ticker fig) as [[]|e]; [|done]. simpl.
    by destruct (savefig w fig).
  - by destruct (savefig w fig).
Qed.

Lemma rows_setcol_rel name s d :
  Forall2 (λ r r', stamp r' = stamp r ∧ ∀ c, c ≠ name → cell c r' = cell c r)
    (rows d) (rows (setcol name s d)).
Proof.
  apply Forall2_same_length_lookup_2; [by rewrite length_rows_setcol|].
  intros i r r' Hr Hr'. simpl in Hr'. rewrite list_lookup_imap, Hr in Hr'.
  injection Hr' as <-. split; [done|].
  intros c Hc. by apply cell_set_cell_ne.
Qed.

Lemma rows_add_mas_rel d periods :
  Forall2 (λ r r', stamp r' = stamp r
                   ∧ ∀ c, (∀ p, p ∈ periods → c ≠ ma_name p) → cell c r' = cell c r)
    (rows d) (rows (add_mas d periods)).
Proof.
  revert d. induction periods as [|p rest IH]; intros d; simpl.
  - apply Forall_Forall2_diag, Forall_forall. by intros r _.
  - eapply Forall2_trans; [|apply (rows_setcol_rel (ma_name p))|apply IH].
    intros r1 r2 r3 [Hs1 Hc1] [Hs2 Hc2]. split; [congruence|].
    intros c Hc. rewrite Hc2, Hc1; [done|..].
    + apply Hc. by left.
    + intros q Hq. apply Hc. by right.
Qed.

Lemma ma_name_50 : ma_name 50 = "MA50".
Proof. by vm_compute. Qed.

Lemma ma_name_200 : ma_name 200 = "MA200".
Proof. by vm_compute. Qed.

Lemma rows_annotated_rel fetched :
  Forall2 carries (rows (dropna fetched)) (rows (annotated fetched)).
Proof.
  unfold annotated. simpl rows at 2.
  change (map ?f ?l) with (f <$> l) at 1. apply Forall2_fmap_r.
  eapply Forall2_trans;
    [|apply (rows_add_mas_rel _ [50; 200])|apply (rows_setcol_rel "RSI")].
  intros r1 r2 r3 [Hs1 Hc1] [Hs2 Hc2]. split; simpl; [congruence|].
  intros c Hc. unfold cell in *. simpl. unfold indicator_columns in Hc.
  rewrite Hc2, Hc1; [done|..].
  - intros p Hp E. apply Hc. subst c.
    apply elem_of_cons in Hp as [->|Hp]; [rewrite ma_name_50; set_solver|].
    apply list_elem_of_singleton in Hp as ->. rewrite ma_name_200. set_solver.
  - intros ->. apply Hc. set_solver.
Qed.

Lemma getcol_set_index_naive c d : getcol c (set_index_naive d) = getcol c d.
Proof.
  unfold getcol. simpl. by rewrite map_map.
Qed.

Lemma getcol_annotated_Close fetched :
  "Close" ∈ columns fetched →
  getcol "Close" (annotated fetched)
  = Ok (map (cell "Close") (rows (dropna fetched))).
Proof.
  intros Hc. unfold annotated. rewrite getcol_set_index_naive.
  rewrite getcol_setcol_ne by done.
  rewrite getcol_add_mas_other by (intros p _; apply not_eq_sym, ma_name_not_Close).
  unfold getcol. by rewrite bool_decide_eq_true_2.
Qed.

Lemma getcol_annotated_MA fetched p :
  p ∈ [50; 200] →
  getcol (ma_name p) (annotated fetched)
  = Ok (rolling_mean p (map (cell "Close") (rows (dropna fetched)))).
Proof.
  intros Hp. unfold annotated. rewrite getcol_set_index_naive.
  rewrite getcol_setcol_ne.
  - by apply getcol_add_mas_ma.
  - unfold ma_name. simpl. discriminate.
Qed.

Lemma getcol_annotated_RSI fetched :
  getcol "RSI" (annotated fetched)
  = Ok (rsi_series (map (cell "Close") (rows (dropna fetched))) 14).
Proof.
  unfold annotated. rewrite getcol_set_index_naive.
  rewrite getcol_setcol_eq.
  - by rewrite Close_add_mas.
  - by rewrite length_rsi_series, length_map.
Qed.

Lemma row_complete_spec cols r :
  row_complete cols r = true ↔ ∀ c, c ∈ cols → cell c r ≠ NaN.
Proof.
  unfold row_complete. rewrite forallb_forall. split.
  - intros H c Hc E. apply list_elem_of_In in Hc. specialize (H c Hc).
    by rewrite E in H.
  - intros H c Hc. apply list_elem_of_In in Hc. specialize (H c Hc).
    by destruct (cell c r).
Qed.

Lemma elem_of_rows_dropna d r :
  r ∈ rows (dropna d) ↔ r ∈ rows d ∧ ∀ c, c ∈ columns d → cell c r ≠ NaN.
Proof.
  unfold dropna. simpl. rewrite list_elem_of_filter, row_complete_spec.
  apply and_comm.
Qed.

Lemma elem_of_rows_display (w : World) months fetched r :
  r ∈ rows (display_window w months fetched)
  ↔ r ∈ rows (annotated fetched)
    ∧ (wall (display_start w months) ≤ wall (stamp r))%Z.
Proof.
  unfold display_window, select_from. cbn [rows].
  rewrite list_elem_of_filter. apply and_comm.
Qed.

(** The cutoff is the instant [months * 30] days of 24 hours before the
    clock's, on New York's wall clock. *)
Lemma wall_display_start (w : World) months :
  wall (display_start w months)
  = (let instant := utcnow w - months * 30 * 86400 in
     instant + utcoffset w instant)%Z.
Proof.
  unfold display_start, pd_Timestamp, minus_days, now, tz_localize_none.
  cbn [wall].
  replace (utcnow w + utcoffset w (utcnow w) - months * 30 * 86400
           - utcoffset w (utcnow w))%Z
    with (utcnow w - months * 30 * 86400)%Z by lia.
  done.
Qed.


Lemma display_row_origin (w : World) months fetched r :
  r ∈ rows (display_window w months fetched) →
  ∃ r0, r0 ∈ rows fetched
        ∧ (∀ c, c ∈ columns fetched → cell c r0 ≠ NaN)
        ∧ carries r0 r.
Proof.
  intros Hr. apply elem_of_rows_display in Hr as [Hr _].
  apply list_elem_of_lookup in Hr as [i Hi].
  destruct (Forall2_lookup_r _ _ _ _ _ (rows_annotated_rel fetched) Hi)
    as (r0 & Hr0 & Hcar).
  exists r0. apply list_elem_of_lookup_2, elem_of_rows_dropna in Hr0.
  destruct Hr0 as [Hin Hfull]. split; [exact Hin|]. split; [exact Hfull|exact Hcar].
Qed.

Lemma create_stock_chart_spec (w : World) ticker months save (h : heap) fetched :
  history w ticker (minus_days (now w) (months * 30 + 300)) (now w) = Ok fetched →
  df_empty fetched = false →
  "Close" ∈ columns fetched →
  create_stock_chart w ticker months save h
  = (if bool_decide (length (rows (display_window w months fetched)) = 0)
     then None
     else match render w ticker save (display_window w months fetched) with
          | Ok buf => Some buf
          | Raise _ => None
          end,
     <[fresh (dom h) := annotated fetched]> h).
Proof.
  intros Hf Hne Hc. unfold create_stock_chart.
  rewrite (create_stock_chart_body_spec w ticker months save h fetched) by done.
  case_bool_decide; [done|]. by destruct (render _ _ _ _).
Qed.




(** C10. Chart creation works on the fetched frame without the rows that
    have a missing value: the rows of the frame it annotates are, position
    by position, the complete fetched rows; the MA50, MA200 and RSI
    columns are the rolling computations over the closes of those rows
    only; and every row of the display window comes from a fetched row
    with no missing field. *)
Theorem indicators_use_cleaned_rows (w : World) ticker months save (h : heap) fetched :
  history w ticker (minus_days (now w) (months * 30 + 300)) (now w) = Ok fetched →
  df_empty fetched = false →
  "Close" ∈ columns fetched →
  let cleaned := filter (λ r, row_complete (columns fetched) r = true) (rows fetched) in
  let close := map (cell "Close") cleaned in
  let full := annotated fetched in
  (create_stock_chart w ticker months save h).2 !! fresh (dom h) = Some full
  ∧ (∀ r, r ∈ cleaned ↔ r ∈ rows fetched ∧ ∀ c, c ∈ columns fetched → cell c r ≠ NaN)
  ∧ Forall2 carries cleaned (rows full)
  ∧ getcol "Close" full = Ok close
  ∧ getcol "MA50" full = Ok (rolling_mean 50 close)
  ∧ getcol "MA200" full = Ok (rolling_mean 200 close)
  ∧ getcol "RSI" full = Ok (rsi_series close 14)
  ∧ (∀ r, r ∈ rows (display_window w months fetched) →
       ∃ r0, r0 ∈ rows fetched
             ∧ (∀ c, c ∈ columns fetched → cell c r0 ≠ NaN)
             ∧ carries r0 r).
Proof.
  intros Hf Hne Hc cleaned close full.
  split.
  { rewrite (create_stock_chart_spec w ticker months save h fetched) by done.
    simpl. apply lookup_insert_eq. }
  split; [intros r; apply elem_of_rows_dropna|].
  split; [apply rows_annotated_rel|].
  split; [by apply getcol_annotated_Close|].
  split; [rewrite <- ma_name_50; apply getcol_annotated_MA; set_solver|].
  split; [rewrite <- ma_name_200; apply getcol_annotated_MA; set_solver|].
  split; [apply getcol_annotated_RSI|].
  intros r. apply display_row_origin.
Qed.

Lemma indicators_use_cleaned_rows_witness :
  getcol "Close" (annotated gappy)
  = Ok (map (cell "Close")
          (filter (λ r, row_complete (columns gappy) r = true) (rows gappy)))
  ∧ getcol "RSI" (annotated gappy)
    = Ok (rsi_series
            (map (cell "Close")
               (filter (λ r, row_complete (columns gappy) r = true) (rows gappy)))
            14).
Proof.
  destruct (indicators_use_cleaned_rows (world_of gappy) "XBI" 6 true ∅ gappy)
    as (_ & _ & _ & Hclose & _ & _ & Hrsi & _).
  - by_evaluation.
  - reflexivity.
  - by_evaluation.
  - split; assumption.
Defined.

Lemma elem_of_columns_annotated fetched c :
  c ∈ columns fetched → c ∈ columns (annotated fetched).
Proof.
  intros Hc. unfold annotated.
  change (columns (set_index_naive ?d)) with (columns d).
  apply (elem_of_columns_setcol "RSI"). left.
  apply elem_of_columns_add_mas. by left.
Qed.

Lemma candlestick_of_window (w : World) months fetched (idx : nat) (r : Row) :
  "Open" ∈ columns fetched → "High" ∈ columns fetched →
  "Low" ∈ columns fetched → "Close" ∈ columns fetched →
  r ∈ rows (display_window w months fetched) →
  let cols := columns (display_window w months fetched) in
  let o := cell "Open" r in
  let c := cell "Close" r in
  let high_low :=
    Plot Price [Fnat idx; Fnat idx] [cell "Low" r; cell "High" r] "black" in
  (o = c →
     candlestick cols idx r
     = Ok [high_low;
           Plot Price [fsub (Fnat idx) (Fq (3 # 10)); fadd (Fnat idx) (Fq (3 # 10))]
                [c; c] "black"])
  ∧ (o ≠ c →
     candlestick cols idx r
     = Ok [high_low;
           Bar idx (fabs (fsub c o)) (fmin c o)
               (if fge (fsub c o) (F 0) then "g" else "r")]
     ∧ fgt (fabs (fsub c o)) (F 0) = true
     ∧ (isfinite o = true → isfinite c = true →
        fadd (fmin c o) (fabs (fsub c o)) = fmax c o)).
Proof.
  intros HO HH HL HC Hr cols o c high_low.
  assert (∀ name, name ∈ columns fetched →
                  row_item cols r name = Ok (cell name r)) as Hitem.
  { intros name Hn. unfold row_item. rewrite bool_decide_eq_true_2; [done|].
    by apply elem_of_columns_annotated. }
  destruct (display_row_origin w months fetched r Hr) as (r0 & _ & Hfull & _ & Hsame).
  assert (notna o = true) as Hno.
  { unfold o. rewrite Hsame by by_evaluation.
    specialize (Hfull "Open" HO). by destruct (cell "Open" r0). }
  assert (notna c = true) as Hnc.
  { unfold c. rewrite Hsame by by_evaluation.
    specialize (Hfull "Close" HC). by destruct (cell "Close" r0). }
  destruct (candlestick_spec cols idx r o c (cell "High" r) (cell "Low" r))
    as [Htick Hbar]; [by apply Hitem..|done|done|].
  split; [exact Htick|]. intros Hne. split; [by apply Hbar|].
  split; [by apply candle_height_pos|].
  intros Hfo Hfc. destruct o as [a| |], c as [b| |]; try done.
  apply candle_top. congruence.
Qed.

(** ** The batch loop *)

Lemma create_stock_chart_raise (w : World) ticker months save (h h' : heap) e :
  create_stock_chart_body w ticker months save h = (Raise e, h') →
  create_stock_chart w ticker months save h = (None, h').
Proof. intros H. unfold create_stock_chart. by rewrite H. Qed.

Lemma map_fst_outcomes (w : World) tickers (h : heap) :
  map fst (outcomes w tickers h) = tickers.
Proof.
  revert h. induction tickers as [|t rest IH]; intros h; [done|]. simpl.
  destruct (create_stock_chart w t 6 true h) as [r h']. simpl. by rewrite IH.
Qed.

Lemma ticker_loop_outcomes (w : World) tickers b (h : heap) :
  (ticker_loop w tickers b h).1
  = mkBatch (charts_data b ++ charts_of (outcomes w tickers h))
            (successful b ++ succeeded (outcomes w tickers h))
            (failed b ++ failures (outcomes w tickers h)).
Proof.
  revert b h. induction tickers as [|t rest IH]; intros b h; simpl.
  - destruct b. by rewrite !app_nil_r.
  - destruct (create_stock_chart w t 6 true h) as [[buf|] h']; rewrite IH; simpl.
    + unfold charts_of, succeeded, failures. simpl. by rewrite <- !app_assoc.
    + unfold charts_of, succeeded, failures. simpl. by rewrite <- !app_assoc.
Qed.

(** C5. Chart creation turns every failure into [None]: an exception
    raised anywhere in its body (by the download, the indicator
    computation, the drawing or the image backend), an empty fetched
    frame, an empty display window.  The batch loop calls chart creation
    once for every ticker of the list, in order, whatever the outcomes of
    the earlier ones, and files each ticker under successful or failed
    according to its own outcome. *)
Theorem ticker_failures_are_isolated (w : World) (h : heap) :
  (∀ ticker months save e h',
     create_stock_chart_body w ticker months save h = (Raise e, h') →
     create_stock_chart w ticker months save h = (None, h'))
  ∧ (∀ ticker months save e,
       history w ticker (minus_days (now w) (months * 30 + 300)) (now w) = Raise e →
       (create_stock_chart w ticker months save h).1 = None)
  ∧ (∀ ticker months save fetched,
       history w ticker (minus_days (now w) (months * 30 + 300)) (now w) = Ok fetched →
       (df_empty fetched = true →
        (create_stock_chart w ticker months save h).1 = None)
       ∧ (df_empty fetched = false → "Close" ∈ columns fetched →
          rows (display_window w months fetched) = [] →
          (create_stock_chart w ticker months save h).1 = None)
       ∧ (df_empty fetched = false → "Close" ∈ columns fetched →
          ∀ e, render w ticker save (display_window w months fetched) = Raise e →
          (create_stock_chart w ticker months save h).1 = None))
  ∧ (∀ tickers,
       let out := outcomes w tickers h in
       map fst out = tickers
       ∧ (ticker_loop w tickers (mkBatch [] [] []) h).1
         = mkBatch (charts_of out) (succeeded out) (failures out))
  ∧ (generate_and_send_charts w h).1.2
    = mkBatch (charts_of (outcomes w TICKERS h)) (succeeded (outcomes w TICKERS h))
              (failures (outcomes w TICKERS h)).
Proof.
  split; [intros ticker months save e h'; apply create_stock_chart_raise|].
  split.
  { intros ticker months save e Hf.
    unfold create_stock_chart, create_stock_chart_body, bind at 1, lift at 1.
    by rewrite Hf. }
  split.
  { intros ticker months save fetched Hf. split; [|split].
    - intros Hempty.
      unfold create_stock_chart, create_stock_chart_body, bind at 1, lift at 1.
      by rewrite Hf, Hempty.
    - intros Hne Hc Hrows.
      rewrite (create_stock_chart_spec w ticker months save h fetched) by done.
      by rewrite Hrows.
    - intros Hne Hc e He.
      rewrite (create_stock_chart_spec w ticker months save h fetched) by done.
      rewrite He. simpl. by case_bool_decide. }
  split.
  { intros tickers out. split; [apply map_fst_outcomes|].
    by rewrite ticker_loop_outcomes. }
  unfold generate_and_send_charts.
  pose proof (ticker_loop_outcomes w TICKERS (mkBatch [] [] []) h) as H.
  destruct (ticker_loop w TICKERS (mkBatch [] [] []) h) as [b h']. simpl in *.
  by subst b.
Qed.

Lemma ticker_failures_are_isolated_witness :
  (create_stock_chart (world_of rising) "HOOD" 6 true ∅).1 = None
  ∧ failed (generate_and_send_charts (world_of rising) ∅).1.2 = ["HOOD"]
  ∧ successful (generate_and_send_charts (world_of rising) ∅).1.2
    = ["XBI"; "UBER"; "CIBR"; "NLR"; "RKLB"; "COST"; "QQQM"; "SPLG"; "HUMN";
       "KOID"; "GOOGL"; "NVDA"; "RSP"; "PLTR"].
Proof.
  destruct (ticker_failures_are_isolated (world_of rising) ∅)
    as (_ & Hraise & _ & _ & Hbatch).
  split.
  - apply (Hraise "HOOD" 6%Z true (RuntimeError "download failed")).
    reflexivity.
  - rewrite Hbatch. split; by_evaluation.
Defined.

(** * Further properties *)

(** ** The range of the RSI *)









(** ** Trends *)














(** ** Moving averages over full windows *)










(** ** Missing close column *)

(** X6. Without a [Close] column [calculate_rsi] raises [KeyError] and so
    does [calculate_moving_averages] as soon as it has a period to work on;
    in both cases nothing has been written to the store.  With no period
    [calculate_moving_averages] returns its argument untouched. *)
Theorem indicators_need_close (h : heap) (df : loc) (d : DataFrame)
    (period : nat) (periods : list nat) :
  h !! df = Some d →
  "Close" ∉ columns d →
  calculate_rsi df period h = (Raise (KeyError "Close"), h)
  ∧ calculate_moving_averages df (period :: periods) h
    = (Raise (KeyError "Close"), h)
  ∧ calculate_moving_averages df [] h = (Ok df, h).
Proof.
  intros Hd Hc.
  assert (getcol "Close" d = Raise (KeyError "Close")) as Hk.
  { unfold getcol. by rewrite bool_decide_eq_false_2. }
  split; [|split].
  - unfold calculate_rsi, bind. by rewrite (getitem_spec h df d), Hk.
  - unfold calculate_moving_averages, bind. simpl. unfold bind.
    by rewrite (getitem_spec h df d), Hk.
  - done.
Qed.

Lemma indicators_need_close_witness :
  calculate_rsi 0 14 {[0 := opens_only]}
  = (Raise (KeyError "Close"), {[0 := opens_only]}).
Proof.
  refine (proj1 (indicators_need_close {[0 := opens_only]} 0 opens_only 14 [] _ _)).
  - by_evaluation.
  - by_evaluation.
Defined.

(** ** Cleaning *)

Lemma filter_idemp {A} (P : A → Prop) `{∀ x, Decision (P x)} (l : list A) :
  filter P (filter P l) = filter P l.
Proof. apply filter_all, Forall_forall. intros x Hx. by apply list_elem_of_filter in Hx as [? _]. Qed.

(** X7. [dropna] keeps the columns and a sub-sequence of the rows; no
    column of the result has a missing value; applying it again changes
    nothing; and a frame without missing values is returned as it is. *)
Theorem dropna_cleans (d : DataFrame) :
  columns (dropna d) = columns d
  ∧ rows (dropna d) `sublist_of` rows d
  ∧ (∀ c s, getcol c (dropna d) = Ok s → Forall (λ x, x ≠ NaN) s)
  ∧ dropna (dropna d) = dropna d
  ∧ ((∀ r c, r ∈ rows d → c ∈ columns d → cell c r ≠ NaN) → dropna d = d).
Proof.
  split; [done|]. split; [apply sublist_filter|]. split; [|split].
  - intros c s Hs. apply getcol_Ok in Hs as [Hc ->].
    apply List.Forall_map, Forall_forall. intros r Hr.
    apply elem_of_rows_dropna in Hr as [_ Hfull]. by apply Hfull.
  - unfold dropna. simpl. by rewrite filter_idemp.
  - intros Hfull. destruct d as [cols rs]. unfold dropna. simpl in *.
    f_equal. apply filter_all, Forall_forall. intros r Hr.
    apply row_complete_spec. intros c Hc. by apply Hfull.
Qed.

Lemma dropna_cleans_witness :
  dropna rising = rising ∧ length (rows (dropna gappy)) = 2.
Proof.
  split.
  - apply (proj2 (proj2 (proj2 (proj2 (dropna_cleans rising))))).
    intros r c Hr Hc E. revert Hr Hc E. unfold rising, ohlc_columns. simpl.
    rewrite !elem_of_cons, !elem_of_nil.
    intros [->|[->|[->|[]]]] [->|[->|[->|[->|[]]]]]; by vm_compute.
  - by_evaluation.
Defined.

(** ** The display window of a time-ordered series *)

Lemma filter_suffix (cutoff : Z) (rs : list Row) :
  time_ordered rs →
  ∃ k, filter (λ r, (cutoff ≤ wall (stamp r))%Z) rs = drop k rs.
Proof.
  induction 1 as [|r rs Hsorted [k IH] Hall].
  - by exists 0.
  - destruct (decide (cutoff ≤ wall (stamp r))%Z) as [Hr|Hr].
    + exists 0. simpl. rewrite filter_cons_True by done. f_equal.
      apply filter_all. eapply Forall_impl; [exact Hall|].
      simpl. intros. lia.
    + exists (S k). simpl. by rewrite filter_cons_False.
Qed.

Lemma time_ordered_filter (P : Row → Prop) `{∀ r, Decision (P r)} (rs : list Row) :
  time_ordered rs → time_ordered (filter P rs).
Proof.
  induction 1 as [|r rs Hsorted IH Hall]; [constructor|].
  rewrite filter_cons. destruct (decide (P r)); [|done].
  constructor; [done|]. apply Forall_forall. intros r' Hr'.
  apply list_elem_of_filter in Hr' as [_ Hr']. rewrite Forall_forall in Hall.
  by apply Hall.
Qed.

Lemma time_ordered_carries (rs rs' : list Row) :
  Forall2 carries rs rs' → time_ordered rs → time_ordered rs'.
Proof.
  intros Hrel. induction Hrel as [|r r' rs rs' [Hst _] Hrel IH]; [done|].
  intros Hs. apply StronglySorted_inv in Hs as [Hs Hall].
  constructor; [by apply IH|].
  rewrite Hst. simpl. clear IH Hs.
  induction Hrel as [|x x' l l' [Hx _] _ IH]; [constructor|].
  apply Forall_cons in Hall as [Hx0 Hall]. constructor; [|by apply IH].
  by rewrite Hx.
Qed.

(** X8. When the fetched rows are in time order the display window is a
    suffix of the annotated frame: chart creation drops a leading run of
    rows and keeps all the rest. *)
Theorem display_window_is_suffix (w : World) (months : Z) (fetched : DataFrame) :
  time_ordered (rows fetched) →
  ∃ k, rows (display_window w months fetched) = drop k (rows (annotated fetched)).
Proof.
  intros Hs. apply filter_suffix.
  apply (time_ordered_carries (rows (dropna fetched))); [apply rows_annotated_rel|].
  by apply time_ordered_filter.
Qed.

Lemma display_window_is_suffix_witness :
  ∃ k, rows (display_window (world_of rising) 0 rising)
       = drop k (rows (annotated rising)).
Proof.
  apply display_window_is_suffix. unfold time_ordered, rising. simpl.
  repeat (constructor; [|repeat constructor; simpl; lia]). constructor.
Defined.

(** X9. A shorter horizon selects from what a longer one selects: for a
    zone whose offset from UTC stays within a day, the window for fewer
    months is the window for more months cut again at the cutoff of the
    fewer months. *)
Theorem display_window_nested (w : World) (m1 m2 : Z) (fetched : DataFrame) :
  (m1 ≤ m2)%Z →
  (∀ instant, -86400 ≤ utcoffset w instant ≤ 86400)%Z →
  rows (display_window w m1 fetched)
  = filter (λ r, (wall (display_start w m1) ≤ wall (stamp r))%Z)
      (rows (display_window w m2 fetched)).
Proof.
  intros Hm Hoff. unfold display_window, select_from. cbn [rows].
  rewrite list_filter_filter_l; [done|]. intros r Hr.
  rewrite wall_display_start in *. cbv zeta in *.
  pose proof (Hoff (utcnow w - m1 * 30 * 86400)%Z).
  pose proof (Hoff (utcnow w - m2 * 30 * 86400)%Z).
  destruct (decide (m1 = m2)) as [->|Hne]; [done|]. nia.
Qed.

Lemma display_window_nested_witness :
  rows (display_window (winter_night summer) 6 summer)
  = filter (λ r, (wall (display_start (winter_night summer) 6) ≤ wall (stamp r))%Z)
      (rows (display_window (winter_night summer) 7 summer)).
Proof.
  apply display_window_nested; [lia|].
  intros instant. cbn [utcoffset winter_night]. unfold new_york_2023.
  case_bool_decide; lia.
Defined.

(** ** Tick positions and labels *)

Lemma x_ticks_arith n :
  1 ≤ n →
  let q := n / (6 `min` n) in
  let m := (n + q - 1) / q in
  1 ≤ q ∧ 1 `max` q = q ∧ (m - 1) * q < n ∧ 6 `min` n ≤ m ∧ m ≤ 11.
Proof.
  intros Hn q m.
  assert (6 `min` n ≠ 0) as Hnum by lia.
  pose proof (Nat.div_mod_eq n (6 `min` n)) as E1.
  pose proof (Nat.mod_upper_bound n (6 `min` n) Hnum) as B1.
  fold q in E1.
  assert (1 ≤ q) as Hq by nia.
  assert (q ≠ 0) as Hq0 by lia.
  pose proof (Nat.div_mod_eq (n + q - 1) q) as E2.
  pose proof (Nat.mod_upper_bound (n + q - 1) q Hq0) as B2.
  fold m in E2.
  split; [done|]. split; [lia|]. split; [nia|]. split; nia.
Qed.

Lemma x_tick_labels_spec (my : Timestamp → string) (d : DataFrame) (ticks : list nat) :
  Forall (λ t, t < length (rows d)) ticks →
  ∃ labels,
    x_tick_labels my d ticks = Ok labels
    ∧ Forall2 (λ t lab, ∃ r, rows d !! t = Some r ∧ lab = my (stamp r))
        ticks labels.
Proof.
  induction 1 as [|t ticks Ht _ (labels & Hl & Hrel)].
  - by exists [].
  - destruct (lookup_lt_is_Some_2 (rows d) t Ht) as [r Hr].
    exists (my (stamp r) :: labels). split.
    + unfold x_tick_labels in *. simpl. rewrite Hr. simpl.
      by rewrite Hl.
    + constructor; [by exists r|done].
Qed.

Lemma x_ticks_value n :
  1 ≤ n →
  let q := n / (6 `min` n) in
  let m := (n + q - 1) / q in
  x_ticks n = Ok (map (λ k, k * q) (seq 0 m))
  ∧ Forall (λ t, t < n) (map (λ k, k * q) (seq 0 m)).
Proof.
  intros Hn q m.
  destruct (x_ticks_arith n Hn) as (Hq & Hmax & Hlast & _).
  fold q in Hq, Hmax, Hlast. fold m in Hlast. split.
  - unfold x_ticks, py_floordiv. rewrite bool_decide_eq_false_2 by lia.
    unfold mbind, result_bind. fold q. by rewrite Hmax.
  - apply List.Forall_map, Forall_forall. intros k Hk.
    apply elem_of_seq in Hk. nia.
Qed.

(** X10. For a non-empty window of [n] points the tick positions start at
    0, are spaced by one fixed step, are all valid positions, and number
    between [min 6 n] and 11; the labels are computed without error, one
    per tick, each from the timestamp of the row at its tick. *)
Theorem x_ticks_are_valid_positions (my : Timestamp → string) (d : DataFrame) :
  rows d ≠ [] →
  ∃ step ticks labels,
    x_ticks (length (rows d)) = Ok ticks
    ∧ 1 ≤ step
    ∧ ticks = map (λ k, k * step) (seq 0 (length ticks))
    ∧ Forall (λ t, t < length (rows d)) ticks
    ∧ 6 `min` length (rows d) ≤ length ticks ∧ length ticks ≤ 11
    ∧ x_tick_labels my d ticks = Ok labels
    ∧ Forall2 (λ t lab, ∃ r, rows d !! t = Some r ∧ lab = my (stamp r))
        ticks labels.
Proof.
  intros Hne. set (n := length (rows d)).
  assert (1 ≤ n) as Hn by (unfold n; destruct (rows d); [done|simpl; lia]).
  destruct (x_ticks_arith n Hn) as (Hq & _ & _ & Hlo & Hhi).
  destruct (x_ticks_value n Hn) as [Hticks Hvalid].
  set (q := n / (6 `min` n)) in *. set (m := (n + q - 1) / q) in *.
  destruct (x_tick_labels_spec my d _ Hvalid) as (labels & Hl & Hrel).
  exists q, (map (λ k, k * q) (seq 0 m)), labels.
  rewrite length_map, length_seq. repeat split; done.
Qed.

Lemma x_ticks_are_valid_positions_witness :
  ∃ step ticks labels,
    x_ticks (length (rows rising)) = Ok ticks
    ∧ 1 ≤ step
    ∧ ticks = map (λ k, k * step) (seq 0 (length ticks))
    ∧ Forall (λ t, t < length (rows rising)) ticks
    ∧ 6 `min` length (rows rising) ≤ length ticks ∧ length ticks ≤ 11
    ∧ x_tick_labels (λ _, "Jan 70") rising ticks = Ok labels
    ∧ Forall2 (λ t lab, ∃ r, rows rising !! t = Some r ∧ lab = "Jan 70")
        ticks labels.
Proof. apply (x_ticks_are_valid_positions (λ _, "Jan 70") rising). done. Defined.

(** ** Moving-average overlays *)

Lemma filter_ext_Forall {A} (P Q : A → Prop) `{∀ x, Decision (P x)}
    `{∀ x, Decision (Q x)} (l : list A) :
  Forall (λ x, P x ↔ Q x) l → filter P l = filter Q l.
Proof.
  induction 1 as [|x l Hx _ IH]; [done|]. rewrite !filter_cons, IH.
  destruct (decide (P x)), (decide (Q x)); tauto.
Qed.

Lemma defined_positions_shift (x : fnum) (t : Series) k n :
  filter (λ i, notna (at_pos (x :: t) (i - k)) = true) (seq (S k) n)
  = filter (λ i, notna (at_pos t (i - S k)) = true) (seq (S k) n).
Proof.
  apply filter_ext_Forall, Forall_forall. intros i Hi.
  apply elem_of_seq in Hi. replace (i - k) with (S (i - S k)) by lia. done.
Qed.

Lemma overlay_positions (col : Series) k :
  omap (λ p, if notna p.2 then Some (Fnat p.1) else None)
       (imap (λ i x, (k + i, x)) col)
  = Fnat <$> filter (λ i, notna (at_pos col (i - k)) = true) (seq k (length col)).
Proof.
  revert k. induction col as [|x t IH]; intros k; [done|].
  rewrite imap_cons. simpl length. simpl seq.
  rewrite filter_cons, defined_positions_shift.
  rewrite (imap_ext _ (λ i y, (S k + i, y)))
    by (intros; simpl; f_equal; lia).
  rewrite Nat.sub_diag, Nat.add_0_r. change (at_pos (x :: t) 0) with x.
  cbn [omap list_omap fst snd].
  destruct (notna x) eqn:E; destruct (decide _) as [Hd|Hd]; try done.
  rewrite fmap_cons. f_equal. apply (IH (S k)).
Qed.

Lemma overlay_values (col : Series) k :
  filter (λ v, notna v = true) col
  = (λ i, at_pos col (i - k))
    <$> filter (λ i, notna (at_pos col (i - k)) = true) (seq k (length col)).
Proof.
  revert k. induction col as [|x t IH]; intros k; [done|].
  simpl length. simpl seq. rewrite !filter_cons.
  rewrite defined_positions_shift, (IH (S k)).
  assert ((λ i, at_pos (x :: t) (i - k))
            <$> filter (λ i, notna (at_pos t (i - S k)) = true) (seq (S k) (length t))
          = (λ i, at_pos t (i - S k))
            <$> filter (λ i, notna (at_pos t (i - S k)) = true) (seq (S k) (length t)))
    as Htail.
  { apply list_fmap_ext. intros j i Hi. apply list_elem_of_lookup_2 in Hi.
    apply list_elem_of_filter in Hi as [_ Hi]. apply elem_of_seq in Hi.
    by replace (i - k) with (S (i - S k)) by lia. }
  rewrite Nat.sub_diag. change (at_pos (x :: t) 0) with x.
  destruct (decide (notna x = true)).
  - rewrite fmap_cons, Htail, Nat.sub_diag. done.
  - by rewrite Htail.
Qed.

(** X11. A moving-average overlay plots exactly the points [(i, col[i])]
    at the positions [i] where the column has a value, in order; when the
    column has no value at all, or does not exist, nothing is drawn. *)
Theorem ma_overlay_points (name color : string) (d : DataFrame) :
  (∀ col, getcol name d = Ok col →
     let defined := filter (λ i, notna (at_pos col i) = true) (seq 0 (length col)) in
     ma_overlay name color d
     = if bool_decide (defined = []) then []
       else [Plot Price (map Fnat defined) (map (at_pos col) defined) color])
  ∧ (name ∉ columns d → ma_overlay name color d = []).
Proof.
  split.
  - intros col Hcol defined. unfold ma_overlay. rewrite Hcol.
    assert (imap pair col = imap (λ i x, (0 + i, x)) col) as -> by done.
    rewrite overlay_positions, (overlay_values col 0).
    assert (∀ l : list nat, filter (λ i, notna (at_pos col (i - 0)) = true) l
                 = filter (λ i, notna (at_pos col i) = true) l) as Hsub.
    { intros l. apply filter_ext_Forall, Forall_forall. intros i _.
      by rewrite Nat.sub_0_r. }
    rewrite Hsub. fold defined.
    assert ((λ i, at_pos col (i - 0)) <$> defined = map (at_pos col) defined) as ->.
    { apply list_fmap_ext. intros j i _. by rewrite Nat.sub_0_r. }
    rewrite length_map. destruct defined as [|i rest]; [done|].
    rewrite bool_decide_eq_true_2 by (simpl; lia).
    by rewrite bool_decide_eq_false_2.
  - intros Hc. unfold ma_overlay, getcol. by rewrite bool_decide_eq_false_2.
Qed.

Lemma ma_overlay_points_witness :
  ma_overlay "Close" "blue" gappy
  = [Plot Price [Fnat 0; Fnat 2] [F 1; F 3] "blue"].
Proof.
  pose proof (proj1 (ma_overlay_points "Close" "blue" gappy) [F 1; NaN; F 3]) as H.
  simpl in H. apply H. by_evaluation.
Defined.

(** ** Drawing a window *)

Lemma candlestick_two cols idx r :
  "Open" ∈ cols → "High" ∈ cols → "Low" ∈ cols → "Close" ∈ cols →
  ∃ a b, candlestick cols idx r = Ok [a; b].
Proof.
  intros HO HH HL HC. unfold candlestick, row_item.
  rewrite !bool_decide_eq_true_2 by done. unfold mbind, result_bind.
  match goal with |- context [if ?b then Ok _ else Ok _] => destruct b end;
    eauto.
Qed.

Lemma candlesticks_ok cols idx rs :
  "Open" ∈ cols → "High" ∈ cols → "Low" ∈ cols → "Close" ∈ cols →
  ∃ fig, candlesticks cols idx rs = Ok fig ∧ length fig = 2 * length rs.
Proof.
  intros HO HH HL HC. revert idx.
  induction rs as [|r rs IH]; intros idx; [by exists []|].
  destruct (candlestick_two cols idx r HO HH HL HC) as (a & b & Hab).
  destruct (IH (S idx)) as (fig & Hfig & Hlen).
  exists (a :: b :: fig). simpl. rewrite Hab. simpl. rewrite Hfig. simpl.
  split; [done|]. lia.
Qed.

Lemma candlesticks_from cols idx rs :
  "Open" ∈ cols → "High" ∈ cols → "Low" ∈ cols → "Close" ∈ cols →
  ∃ fig, candlesticks cols idx rs = Ok fig
    ∧ length fig = 2 * length rs
    ∧ ∀ i r, rs !! i = Some r →
        ∃ a b, candlestick cols (idx + i) r = Ok [a; b]
               ∧ fig !! (2 * i) = Some a ∧ fig !! (2 * i + 1) = Some b.
Proof.
  intros HO HH HL HC. revert idx.
  induction rs as [|r rs IH]; intros idx.
  { exists []. split; [done|]. split; [done|]. by intros i r. }
  destruct (candlestick_two cols idx r HO HH HL HC) as (a & b & Hab).
  destruct (IH (S idx)) as (fig & Hfig & Hlen & Hat).
  exists (a :: b :: fig). cbn [candlesticks]. rewrite Hab, Hfig.
  split; [done|]. split; [simpl; lia|].
  intros [|i] r' Hi.
  - injection Hi as <-. exists a, b. by rewrite Nat.add_0_r.
  - destruct (Hat i r' Hi) as (a' & b' & Hc & Ha & Hb).
    exists a', b'. replace (idx + S i) with (S idx + i) by lia.
    split; [done|].
    replace (2 * S i) with (S (S (2 * i))) by lia.
    replace (S (S (2 * i)) + 1) with (S (S (2 * i + 1))) by lia.
    done.
Qed.

(** X21. With the four price columns present the candlestick loop raises
    nothing and draws exactly two artists per row, in row order: the row
    at position [i] is drawn at x-position [i] and its high-low line and
    its body are the artists [2 i] and [2 i + 1] of the layer. *)
Theorem candlesticks_in_order (d : DataFrame) :
  has_prices d →
  ∃ fig, candlesticks (columns d) 0 (rows d) = Ok fig
    ∧ length fig = 2 * length (rows d)
    ∧ ∀ i r, rows d !! i = Some r →
        ∃ a b, candlestick (columns d) i r = Ok [a; b]
               ∧ fig !! (2 * i) = Some a ∧ fig !! (2 * i + 1) = Some b.
Proof.
  intros (HO & HH & HL & HC).
  exact (candlesticks_from (columns d) 0 (rows d) HO HH HL HC).
Qed.

Lemma candlesticks_in_order_witness :
  ∃ fig, candlesticks (columns rising) 0 (rows rising) = Ok fig
    ∧ length fig = 2 * length (rows rising)
    ∧ ∀ i r, rows rising !! i = Some r →
        ∃ a b, candlestick (columns rising) i r = Ok [a; b]
               ∧ fig !! (2 * i) = Some a ∧ fig !! (2 * i + 1) = Some b.
Proof. apply (candlesticks_in_order rising). repeat split; by_evaluation. Defined.

Lemma candlesticks_missing cols idx r rs name :
  name ∈ ["Open"; "Close"; "High"; "Low"] → name ∉ cols →
  ∃ key, candlesticks cols idx (r :: rs) = Raise (KeyError key).
Proof.
  intros Hname Hmiss. simpl. unfold candlestick, row_item.
  destruct (decide ("Open" ∈ cols)) as [HO|HO].
  2:{ rewrite (bool_decide_eq_false_2 _ HO). by eexists. }
  rewrite (bool_decide_eq_true_2 _ HO). simpl.
  destruct (decide ("Close" ∈ cols)) as [HC|HC].
  2:{ rewrite (bool_decide_eq_false_2 _ HC). by eexists. }
  rewrite (bool_decide_eq_true_2 _ HC). simpl.
  destruct (decide ("High" ∈ cols)) as [HH|HH].
  2:{ rewrite (bool_decide_eq_false_2 _ HH). by eexists. }
  rewrite (bool_decide_eq_true_2 _ HH). simpl.
  destruct (decide ("Low" ∈ cols)) as [HL|HL].
  2:{ rewrite (bool_decide_eq_false_2 _ HL). by eexists. }
  exfalso. rewrite !elem_of_cons, elem_of_nil in Hname.
  destruct Hname as [->|[->|[->|[->|[]]]]]; done.
Qed.

Lemma ma_overlay_no_bar name color d :
  Forall (λ a, ∀ x height bottom col, a ≠ Bar x height bottom col)
    (ma_overlay name color d).
Proof.
  unfold ma_overlay. destruct (getcol name d) as [col|e]; [|constructor].
  case_bool_decide; repeat constructor. done.
Qed.

Lemma annotation_layer_no_bar d :
  Forall (λ a, ∀ x height bottom col, a ≠ Bar x height bottom col)
    (annotation_layer d).
Proof.
  unfold annotation_layer.
  destruct (getcol "Close" d ≫= price_annotation) as [[[? ?] ?]|e];
    repeat constructor. done.
Qed.

(** The figure is the candlestick layer followed by layers without
    rectangles. *)
Lemma draw_chart_layers (my : Timestamp → string) ticker end_date (d : DataFrame) :
  has_prices d → "RSI" ∈ columns d → rows d ≠ [] →
  ∃ candles rest,
    candlesticks (columns d) 0 (rows d) = Ok candles
    ∧ draw_chart my ticker end_date d = Ok (candles ++ rest)
    ∧ Forall (λ a, ∀ x height bottom col, a ≠ Bar x height bottom col) rest.
Proof.
  intros (HO & HH & HL & HC) HR Hne. unfold draw_chart.
  destruct (candlesticks_ok (columns d) 0 (rows d) HO HH HL HC) as (cs & Hcs & _).
  rewrite Hcs.
  simpl. unfold getcol at 1. rewrite (bool_decide_eq_true_2 _ HR). simpl.
  unfold iloc_back. rewrite bool_decide_eq_true_2.
  2:{ rewrite length_map. destruct (rows d); [done|simpl; lia]. }
  simpl.
  assert (1 ≤ length (rows d)) as Hn by (destruct (rows d); [done|simpl; lia]).
  destruct (x_ticks_value _ Hn) as [Ht Hvalid].
  set (ticks := map _ (seq 0 _)) in Ht, Hvalid. clearbody ticks.
  destruct (x_tick_labels_spec my d _ Hvalid) as (labels & Hl & _).
  rewrite Ht. simpl. rewrite Hl. simpl.
  eexists cs, _. split; [done|]. split; [reflexivity|].
  rewrite !Forall_app. split; [apply ma_overlay_no_bar|].
  split; [apply ma_overlay_no_bar|].
  repeat (apply Forall_cons; split; [done|]). apply annotation_layer_no_bar.
Qed.

Lemma draw_chart_ok (my : Timestamp → string) ticker end_date (d : DataFrame) :
  has_prices d → "RSI" ∈ columns d → rows d ≠ [] →
  ∃ fig, draw_chart my ticker end_date d = Ok fig.
Proof.
  intros Hp HR Hne.
  destruct (draw_chart_layers my ticker end_date d Hp HR Hne)
    as (candles & rest & _ & Hfig & _).
  by eexists.
Qed.

Lemma candlestick_bar cols idx r here x height bottom col :
  candlestick cols idx r = Ok here → Bar x height bottom col ∈ here → x = idx.
Proof.
  unfold candlestick.
  destruct (row_item cols r "Open") as [o|]; [|done].
  destruct (row_item cols r "Close") as [c|]; [|done].
  destruct (row_item cols r "High") as [hi|]; [|done].
  destruct (row_item cols r "Low") as [lo|]; [|done].
  unfold mbind, result_bind.
  destruct (fgt _ _); intros [= <-]; rewrite !elem_of_cons, elem_of_nil;
    intros [?|[?|[]]]; congruence.
Qed.

Lemma candlesticks_elem cols idx rs fig a :
  candlesticks cols idx rs = Ok fig → a ∈ fig →
  ∃ j r here, rs !! j = Some r ∧ candlestick cols (idx + j) r = Ok here ∧ a ∈ here.
Proof.
  revert idx fig. induction rs as [|r rs IH]; intros idx fig.
  { intros [= <-] Ha. by apply elem_of_nil in Ha. }
  cbn [candlesticks]. unfold mbind, result_bind.
  destruct (candlestick cols idx r) as [here|] eqn:Hhere; [|done].
  destruct (candlesticks cols (S idx) rs) as [more|] eqn:Hmore; [|done].
  intros [= <-] Ha. apply elem_of_app in Ha as [Ha|Ha].
  - exists 0, r, here. by rewrite Nat.add_0_r.
  - destruct (IH (S idx) more Hmore Ha) as (j & r' & here' & Hj & Hc & Hin).
    exists (S j), r', here'. replace (idx + S j) with (S idx + j) by lia. done.
Qed.

Lemma has_prices_display (w : World) months fetched :
  has_prices fetched →
  has_prices (display_window w months fetched)
  ∧ "RSI" ∈ columns (display_window w months fetched).
Proof.
  intros (HO & HH & HL & HC).
  change (columns (display_window w months fetched))
    with (columns (annotated fetched)). unfold has_prices.
  change (columns (display_window w months fetched))
    with (columns (annotated fetched)).
  repeat split; try (by apply elem_of_columns_annotated).
  unfold annotated. change (columns (set_index_naive ?d)) with (columns d).
  apply elem_of_columns_setcol. by right.
Qed.

(** C7. In the figure drawn for the display window, the point at position
    [i] has its high-low line, and then: when its open equals its close
    exactly, a thin horizontal tick at that price, and no rectangle
    anywhere in the figure for that point; when they differ, a rectangle
    of positive height whose bottom is min(open, close), whose top, for
    finite prices, is max(open, close), green when close - open is
    non-negative and red when it is negative. *)
Theorem candlestick_shape (w : World) ticker months fetched (i : nat) (r : Row) :
  "Open" ∈ columns fetched → "High" ∈ columns fetched →
  "Low" ∈ columns fetched → "Close" ∈ columns fetched →
  rows (display_window w months fetched) !! i = Some r →
  let o := cell "Open" r in
  let c := cell "Close" r in
  ∃ fig,
    draw_chart (strftime_b_y w) ticker (now w) (display_window w months fetched)
    = Ok fig
    ∧ fig !! (2 * i)
      = Some (Plot Price [Fnat i; Fnat i] [cell "Low" r; cell "High" r] "black")
    ∧ (o = c →
         fig !! (2 * i + 1)
         = Some (Plot Price
                   [fsub (Fnat i) (Fq (3 # 10)); fadd (Fnat i) (Fq (3 # 10))]
                   [c; c] "black")
         ∧ ∀ height bottom color, Bar i height bottom color ∉ fig)
    ∧ (o ≠ c →
         fig !! (2 * i + 1)
         = Some (Bar i (fabs (fsub c o)) (fmin c o)
                   (if fge (fsub c o) (F 0) then "g" else "r"))
         ∧ fgt (fabs (fsub c o)) (F 0) = true
         ∧ (isfinite o = true → isfinite c = true →
            fadd (fmin c o) (fabs (fsub c o)) = fmax c o)).
Proof.
  intros HO HH HL HC Hi o c.
  set (d := display_window w months fetched) in *.
  destruct (has_prices_display w months fetched) as [Hpd Hrsi]; [done|].
  fold d in Hpd, Hrsi.
  assert (rows d ≠ []) as Hne by (intros E; by rewrite E in Hi).
  destruct (draw_chart_layers (strftime_b_y w) ticker (now w) d Hpd Hrsi Hne)
    as (candles & rest & Hcs & Hfig & Hrest).
  destruct Hpd as (HO' & HH' & HL' & HC').
  destruct (candlesticks_from (columns d) 0 (rows d) HO' HH' HL' HC')
    as (candles' & Hcs' & Hlen & Hat).
  rewrite Hcs in Hcs'. injection Hcs' as <-.
  destruct (Hat i r Hi) as (a & b & Hab & Ha & Hb). cbn [Nat.add] in Hab.
  assert (r ∈ rows d) as Hr by (by eapply list_elem_of_lookup_2).
  destruct (candlestick_of_window w months fetched i r HO HH HL HC Hr)
    as [Htick Hbar].
  fold d o c in Htick, Hbar.
  assert (2 * i + 1 < length candles) as Hlt.
  { apply lookup_lt_Some in Hi. lia. }
  exists (candles ++ rest). split; [exact Hfig|].
  rewrite !lookup_app_l by lia. split.
  { destruct (decide (o = c)) as [E|E].
    - rewrite (Htick E) in Hab. injection Hab as <- <-. exact Ha.
    - rewrite (proj1 (Hbar E)) in Hab. injection Hab as <- <-. exact Ha. }
  split.
  - intros E. rewrite (Htick E) in Hab. injection Hab as <- <-.
    split; [exact Hb|].
    intros height bottom color Hin. apply elem_of_app in Hin as [Hin|Hin].
    + destruct (candlesticks_elem _ _ _ _ _ Hcs Hin) as (j & r' & here & Hj & Hc & Hh).
      cbn [Nat.add] in Hc.
      pose proof (candlestick_bar _ _ _ _ _ _ _ _ Hc Hh) as ->.
      rewrite Hi in Hj. injection Hj as <-.
      rewrite (Htick E) in Hc. injection Hc as <-.
      rewrite !elem_of_cons, elem_of_nil in Hh.
      destruct Hh as [?|[?|[]]]; discriminate.
    + rewrite Forall_forall in Hrest. by apply (Hrest _ Hin i height bottom color).
  - intros E. destruct (Hbar E) as (Hc & Hpos & Htop).
    rewrite Hc in Hab. injection Hab as <- <-. done.
Qed.

Lemma candlestick_shape_witness :
  ∃ fig,
    draw_chart (strftime_b_y (world_of rising)) "XBI" (now (world_of rising))
      (display_window (world_of rising) 0 rising) = Ok fig
    ∧ fig !! 0 = Some (Plot Price [Fnat 0; Fnat 0] [F 2; F 3] "black")
    ∧ fig !! 1 = Some (Bar 0 (fabs (fsub (F 3) (F 2))) (fmin (F 3) (F 2))
                         (if fge (fsub (F 3) (F 2)) (F 0) then "g" else "r")).
Proof.
  destruct (candlestick_shape (world_of rising) "XBI" 0 rising 0
              (mkRow (tz_localize_none (day 2))
                 (<["RSI" := NaN]>
                    (<["MA200" := NaN]>
                       (<["MA50" := NaN]>
                          (cells (ohlc 2 (F 2) (F 3) (F 2) (F 3))))))))
    as (fig & Hfig & Hline & _ & Hbar).
  - by_evaluation.
  - by_evaluation.
  - by_evaluation.
  - by_evaluation.
  - by_evaluation.
  - exists fig. split; [exact Hfig|]. split; [exact Hline|].
    apply Hbar. intros E. apply (f_equal (λ x, feq x (F 2))) in E.
    vm_compute in E. discriminate.
Defined.

Lemma display_nonempty_fetched (w : World) months fetched :
  rows (display_window w months fetched) ≠ [] → rows fetched ≠ [].
Proof.
  intros Hne Hf. apply Hne.
  destruct (rows (display_window w months fetched)) as [|r rs] eqn:E; [done|].
  assert (r ∈ rows (display_window w months fetched)) as Hr by (rewrite E; left).
  apply display_row_origin in Hr as (r0 & Hr0 & _). rewrite Hf in Hr0.
  by apply elem_of_nil in Hr0.
Qed.

(** X12. With the four price columns fetched and a non-empty display
    window, drawing raises nothing: chart creation returns a buffer unless
    the image backend (the optional file copy, then the in-memory image)
    fails. *)
Theorem chart_fails_only_in_backend (w : World) ticker months save (h : heap) fetched :
  history w ticker (minus_days (now w) (months * 30 + 300)) (now w) = Ok fetched →
  has_prices fetched →
  rows (display_window w months fetched) ≠ [] →
  ∃ fig,
    draw_chart (strftime_b_y w) ticker (now w) (display_window w months fetched)
    = Ok fig
    ∧ (create_stock_chart w ticker months save h).1
      = match (if save then savefig_file w ticker fig else Ok tt) with
        | Ok _ => match savefig w fig with
                  | Ok buf => Some buf
                  | Raise _ => None
                  end
        | Raise _ => None
        end.
Proof.
  intros Hf Hp Hne.
  destruct (has_prices_display w months fetched Hp) as [Hpd Hrsi].
  destruct (draw_chart_ok (strftime_b_y w) ticker (now w) _ Hpd Hrsi Hne)
    as [fig Hfig].
  exists fig. split; [done|].
  assert (df_empty fetched = false) as Hempty.
  { unfold df_empty. destruct Hp as (HO & _).
    rewrite !bool_decide_eq_false_2; [done|..].
    - by apply (display_nonempty_fetched w months).
    - intros E. rewrite E in HO. by apply elem_of_nil in HO. }
  rewrite (create_stock_chart_spec w ticker months save h fetched);
    [|done|done|by destruct Hp as (_ & _ & _ & ?)].
  change ((?a, ?b).1) with a. rewrite bool_decide_eq_false_2.
  2:{ intros E. apply Hne. by apply nil_length_inv. }
  unfold render. rewrite Hfig. simpl.
  destruct save; simpl.
  - destruct (savefig_file w ticker fig) as [[]|e]; simpl; [|done].
    by destruct (savefig w fig).
  - by destruct (savefig w fig).
Qed.

Lemma chart_fails_only_in_backend_witness :
  ∃ fig,
    draw_chart (strftime_b_y (world_of rising)) "XBI" (now (world_of rising))
      (display_window (world_of rising) 6 rising) = Ok fig
    ∧ (create_stock_chart (world_of rising) "XBI" 6 true ∅).1
      = match (if true then savefig_file (world_of rising) "XBI" fig else Ok tt) with
        | Ok _ => match savefig (world_of rising) fig with
                  | Ok buf => Some buf
                  | Raise _ => None
                  end
        | Raise _ => None
        end.
Proof.
  apply (chart_fails_only_in_backend (world_of rising) "XBI" 6 true ∅ rising).
  - by_evaluation.
  - repeat split; by_evaluation.
  - intros E. revert E. by_evaluation.
Defined.

(** X13. A fetched frame that lacks a price column gives no chart:
    without [Close] the indicators raise [KeyError], without [Open],
    [High] or [Low] the first candlestick of a non-empty window does. *)
Theorem missing_price_column_gives_none (w : World) ticker months save (h : heap)
    fetched (name : string) :
  history w ticker (minus_days (now w) (months * 30 + 300)) (now w) = Ok fetched →
  name ∈ ["Open"; "Close"; "High"; "Low"] →
  name ∉ columns fetched →
  ("Close" ∈ columns fetched → rows (display_window w months fetched) ≠ []) →
  (create_stock_chart w ticker months save h).1 = None.
Proof.
  intros Hf Hname Hmiss Hwin.
  destruct (df_empty fetched) eqn:Hempty.
  { unfold create_stock_chart, create_stock_chart_body, bind at 1, lift at 1.
    by rewrite Hf, Hempty. }
  destruct (decide ("Close" ∈ columns fetched)) as [HC|HC].
  - specialize (Hwin HC).
    rewrite (create_stock_chart_spec w ticker months save h fetched) by done.
    change ((?a, ?b).1) with a. case_bool_decide; [done|].
    unfold render, draw_chart.
    assert (name ∉ columns (display_window w months fetched)) as Hmiss'.
    { change (columns (display_window w months fetched))
        with (columns (annotated fetched)).
      unfold annotated. change (columns (set_index_naive ?d)) with (columns d).
      rewrite elem_of_columns_setcol, elem_of_columns_add_mas.
      intros [[?|(p & Hp & ->)]| ->]; [done|..].
      - rewrite !elem_of_cons, elem_of_nil in Hname. unfold ma_name in Hname.
        simpl in Hname. destruct Hname as [?|[?|[?|[?|[]]]]]; discriminate.
      - rewrite !elem_of_cons, elem_of_nil in Hname.
        destruct Hname as [?|[?|[?|[?|[]]]]]; discriminate. }
    destruct (rows (display_window w months fetched)) as [|r rs] eqn:E; [done|].
    destruct (candlesticks_missing (columns (display_window w months fetched))
                0 r rs name Hname Hmiss') as [key ->].
    done.
  - unfold create_stock_chart, create_stock_chart_body, bind at 1, lift at 1.
    rewrite Hf, Hempty. unfold bind at 1, new at 1.
    unfold bind at 1, calculate_moving_averages, bind at 1. simpl.
    unfold bind at 1.
    rewrite (getitem_spec _ _ (dropna fetched)) by apply lookup_insert_eq.
    unfold getcol. by rewrite bool_decide_eq_false_2.
Qed.

Lemma missing_price_column_gives_none_witness :
  (create_stock_chart (world_of no_high) "XBI" 6 true ∅).1 = None.
Proof.
  apply (missing_price_column_gives_none (world_of no_high) "XBI" 6 true ∅
           no_high "High").
  - by_evaluation.
  - by_evaluation.
  - intros E. revert E. by_evaluation.
  - intros _ E. revert E. by_evaluation.
Defined.

(** ** Nothing to draw *)

Lemma create_stock_chart_early (w : World) ticker months save (h : heap) :
  match history w ticker (minus_days (now w) (months * 30 + 300)) (now w) with
  | Ok fetched => df_empty fetched = true
  | Raise _ => True
  end →
  create_stock_chart w ticker months save h = (None, h).
Proof.
  unfold create_stock_chart, create_stock_chart_body, bind at 1, lift at 1.
  destruct (history _ _ _ _) as [fetched|e]; [|done]. by intros ->.
Qed.

Lemma create_stock_chart_no_close (w : World) ticker months save (h : heap) fetched :
  history w ticker (minus_days (now w) (months * 30 + 300)) (now w) = Ok fetched →
  "Close" ∉ columns fetched →
  (create_stock_chart w ticker months save h).1 = None.
Proof.
  intros Hf HC. destruct (df_empty fetched) eqn:Hempty.
  { rewrite create_stock_chart_early; [done|]. by rewrite Hf. }
  unfold create_stock_chart, create_stock_chart_body, bind at 1, lift at 1.
  rewrite Hf, Hempty. unfold bind at 1, new at 1.
  unfold bind at 1, calculate_moving_averages, bind at 1. simpl.
  unfold bind at 1.
  rewrite (getitem_spec _ _ (dropna fetched)) by apply lookup_insert_eq.
  unfold getcol. by rewrite bool_decide_eq_false_2.
Qed.

(** X20. Chart creation returns [None] when there is nothing to draw: when
    the download raises or the fetched frame is empty (and then the store
    is left as it was), and also when every fetched row has a missing value
    in some column, because cleaning then leaves no row for the window. *)
Theorem unusable_data_gives_no_chart (w : World) ticker months save (h : heap) :
  let fetch := history w ticker (minus_days (now w) (months * 30 + 300)) (now w) in
  (∀ e, fetch = Raise e → create_stock_chart w ticker months save h = (None, h))
  ∧ (∀ fetched, fetch = Ok fetched → df_empty fetched = true →
       create_stock_chart w ticker months save h = (None, h))
  ∧ (∀ fetched, fetch = Ok fetched →
       (∀ r, r ∈ rows fetched → ∃ c, c ∈ columns fetched ∧ cell c r = NaN) →
       (create_stock_chart w ticker months save h).1 = None).
Proof.
  intros fetch. split; [|split].
  - intros e He. apply create_stock_chart_early. fold fetch. by rewrite He.
  - intros fetched Hf He. apply create_stock_chart_early. fold fetch.
    by rewrite Hf.
  - intros fetched Hf Hgap.
    destruct (df_empty fetched) eqn:Hempty.
    { rewrite create_stock_chart_early; [done|]. fold fetch. by rewrite Hf. }
    destruct (decide ("Close" ∈ columns fetched)) as [HC|HC].
    + rewrite (create_stock_chart_spec w ticker months save h fetched) by done.
      change ((?a, ?b).1) with a. rewrite bool_decide_eq_true_2; [done|].
      destruct (rows (display_window w months fetched)) as [|r rs] eqn:E; [done|].
      assert (r ∈ rows (display_window w months fetched)) as Hr
        by (rewrite E; left).
      apply display_row_origin in Hr as (r0 & Hr0 & Hfull & _).
      destruct (Hgap r0 Hr0) as (c & Hc & Hna). by destruct (Hfull c Hc).
    + by apply (create_stock_chart_no_close w ticker months save h fetched).
Qed.

Lemma unusable_data_gives_no_chart_witness :
  (create_stock_chart (world_of all_gaps) "XBI" 6 true ∅).1 = None.
Proof.
  refine (proj2 (proj2 (unusable_data_gives_no_chart (world_of all_gaps)
                          "XBI" 6 true ∅)) all_gaps _ _).
  - by_evaluation.
  - intros r Hr. apply elem_of_cons in Hr as [->|Hr].
    + exists "Open". split; by_evaluation.
    + apply list_elem_of_singleton in Hr as ->.
      exists "Close". split; by_evaluation.
Defined.

(** ** What chart creation does to the store *)

Lemma touches_only_ret {A} df (a : A) : touches_only df (ret a).
Proof. by intros h l _. Qed.

Lemma touches_only_lift {A} df (r : result A) : touches_only df (lift r).
Proof. by intros h l _. Qed.

Lemma touches_only_bind {A B} df (m : M A) (k : A → M B) :
  touches_only df m → (∀ a, touches_only df (k a)) →
  touches_only df (bind m k).
Proof.
  intros Hm Hk h l Hl. unfold bind. specialize (Hm h l Hl).
  destruct (m h) as [[a|e] h']; simpl in *; [|done].
  by rewrite (Hk a h' l Hl).
Qed.

Lemma touches_only_deref df : touches_only df (deref df).
Proof. intros h l _. unfold deref. by destruct (h !! df). Qed.

Lemma touches_only_getitem df name : touches_only df (getitem df name).
Proof.
  apply touches_only_bind; [apply touches_only_deref|].
  intros d. apply touches_only_lift.
Qed.

Lemma touches_only_setitem df name s : touches_only df (setitem df name s).
Proof.
  apply touches_only_bind; [apply touches_only_deref|].
  intros d h l Hl. simpl. by rewrite lookup_insert_ne.
Qed.

Lemma touches_only_ma_loop df periods : touches_only df (ma_loop df periods).
Proof.
  induction periods as [|p rest IH]; [apply touches_only_ret|]. simpl.
  apply touches_only_bind; [apply touches_only_getitem|]. intros close.
  apply touches_only_bind; [apply touches_only_setitem|]. by intros _.
Qed.

Lemma touches_only_calculate_moving_averages df periods :
  touches_only df (calculate_moving_averages df periods).
Proof.
  apply touches_only_bind; [apply touches_only_ma_loop|].
  intros _. apply touches_only_ret.
Qed.

Lemma touches_only_calculate_rsi df period :
  touches_only df (calculate_rsi df period).
Proof.
  apply touches_only_bind; [apply touches_only_getitem|].
  intros close. apply touches_only_ret.
Qed.

Lemma touches_only_localize_index df : touches_only df (localize_index df).
Proof.
  apply touches_only_bind; [apply touches_only_deref|].
  intros d h l Hl. simpl. by rewrite lookup_insert_ne.
Qed.

Lemma touches_only_bind_post {A B} df (m : M A) (P : A → Prop) (k : A → M B) :
  touches_only df m →
  (∀ h a h', m h = (Ok a, h') → P a) →
  (∀ a, P a → touches_only df (k a)) →
  touches_only df (bind m k).
Proof.
  intros Hm HP Hk h l Hl. unfold bind. specialize (Hm h l Hl).
  destruct (m h) as [[a|e] h'] eqn:E; simpl in *; [|done].
  by rewrite (Hk a (HP _ _ _ E) h' l Hl).
Qed.

Lemma calculate_moving_averages_returns df periods (h h' : heap) a :
  calculate_moving_averages df periods h = (Ok a, h') → a = df.
Proof.
  unfold calculate_moving_averages, bind, ret.
  destruct (ma_loop df periods h) as [[[]|?] ?]; congruence.
Qed.

(** X14. Whatever the outcome, chart creation changes no object that was
    in the store before the call: it works on a frame of its own, which
    is the only object it may add. *)
Theorem create_stock_chart_keeps_store (w : World) ticker months save (h : heap) :
  (∀ l d, h !! l = Some d →
          (create_stock_chart w ticker months save h).2 !! l = Some d)
  ∧ dom (create_stock_chart w ticker months save h).2
    ⊆ dom h ∪ {[fresh (dom h)]}.
Proof.
  assert (∀ l, l ≠ fresh (dom h) →
               (create_stock_chart w ticker months save h).2 !! l = h !! l) as Hframe.
  { intros l Hl.
    assert ((create_stock_chart w ticker months save h).2
            = (create_stock_chart_body w ticker months save h).2) as ->.
    { unfold create_stock_chart.
      by destruct (create_stock_chart_body w ticker months save h) as [[r|e] h']. }
    unfold create_stock_chart_body. unfold bind at 1, lift at 1.
    destruct (history w ticker _ _) as [fetched|e]; [|done].
    destruct (df_empty fetched); [done|].
    unfold bind at 1, new at 1.
    rewrite <- (lookup_insert_ne h (fresh (dom h)) l (dropna fetched)) by done.
    refine (touches_only_bind_post (fresh (dom h)) _ (λ a, a = fresh (dom h))
              _ _ _ _ _ l Hl).
    - apply touches_only_calculate_moving_averages.
    - intros h0 a h' E. by apply calculate_moving_averages_returns in E.
    - intros a ->.
      apply touches_only_bind; [apply touches_only_calculate_rsi|]. intros rsi.
      apply touches_only_bind; [apply touches_only_setitem|]. intros _.
      apply touches_only_bind; [apply touches_only_localize_index|]. intros _.
      apply touches_only_bind; [apply touches_only_deref|]. intros full.
      case_bool_decide; [apply touches_only_ret|].
      apply touches_only_bind; [apply touches_only_lift|]. intros fig.
      apply touches_only_bind.
      { destruct save; [apply touches_only_lift|apply touches_only_ret]. }
      intros _. apply touches_only_bind; [apply touches_only_lift|].
      intros buf. apply touches_only_ret. }
  split.
  - intros l d Hl. rewrite Hframe; [done|].
    intros ->. apply elem_of_dom_2 in Hl. by apply is_fresh in Hl.
  - intros l Hl. apply elem_of_dom in Hl as [d Hl].
    destruct (decide (l = fresh (dom h))) as [->|Hne]; [set_solver|].
    rewrite Hframe in Hl by done. apply elem_of_dom_2 in Hl. set_solver.
Qed.

Lemma create_stock_chart_keeps_store_witness :
  (create_stock_chart (world_of rising) "XBI" 6 true {[0 := flat]}).2 !! 0
  = Some flat.
Proof.
  apply (proj1 (create_stock_chart_keeps_store (world_of rising) "XBI" 6 true
                  {[0 := flat]})).
  by_evaluation.
Defined.

(** ** The batch report *)

Lemma outcomes_partition (out : list (string * option bytes)) :
  succeeded out ++ failures out ≡ₚ map fst out
  ∧ map fst (charts_of out) = succeeded out
  ∧ succeeded out `sublist_of` map fst out
  ∧ failures out `sublist_of` map fst out.
Proof.
  unfold succeeded, failures, charts_of.
  induction out as [|[t [buf|]] out (IHp & IHc & IHs & IHf)]; simpl.
  - repeat split; constructor.
  - repeat split.
    + by constructor.
    + by f_equal.
    + by constructor.
    + by apply sublist_cons.
  - repeat split.
    + rewrite <- Permutation_middle. by constructor.
    + done.
    + by apply sublist_cons.
    + by constructor.
Qed.

Lemma generate_and_send_charts_spec (w : World) (h : heap) :
  (generate_and_send_charts w h).1
  = (match charts_of (outcomes w TICKERS h) with
     | [] => 1%Z
     | _ => if send_email_with_charts w (charts_of (outcomes w TICKERS h))
            then 0%Z else 1%Z
     end,
     mkBatch (charts_of (outcomes w TICKERS h))
       (succeeded (outcomes w TICKERS h))
       (failures (outcomes w TICKERS h))).
Proof.
  unfold generate_and_send_charts.
  pose proof (ticker_loop_outcomes w TICKERS (mkBatch [] [] []) h) as H.
  revert H. generalize TICKERS. intros tickers H.
  destruct (ticker_loop w tickers (mkBatch [] [] []) h) as [b' h'].
  cbn [fst snd] in *. cbn [charts_data successful failed app] in H. by subst b'.
Qed.

(** X15. At the end of the batch every ticker of the list is reported
    exactly once, as successful or as failed; both reports keep the order
    of the list, and the charts handed to the mail are those of the
    successful tickers, in the same order. *)
Theorem every_ticker_reported_once (w : World) (h : heap) :
  let b := (generate_and_send_charts w h).1.2 in
  successful b ++ failed b ≡ₚ TICKERS
  ∧ length (successful b) + length (failed b) = 15
  ∧ successful b `sublist_of` TICKERS
  ∧ failed b `sublist_of` TICKERS
  ∧ map fst (charts_data b) = successful b.
Proof.
  intros b. unfold b. rewrite generate_and_send_charts_spec. cbn [fst snd].
  destruct (outcomes_partition (outcomes w TICKERS h)) as (Hp & Hc & Hs & Hf).
  rewrite map_fst_outcomes in Hp, Hs, Hf.
  cbn [charts_data successful failed].
  split; [done|]. split; [|done].
  rewrite <- length_app, Hp. done.
Qed.

(** X16. The exit code is 0 or 1; it is 0 exactly when at least one chart
    was created and the mail function reported success on those charts. *)
Theorem exit_code_contract (w : World) (h : heap) :
  let code := (generate_and_send_charts w h).1.1 in
  let b := (generate_and_send_charts w h).1.2 in
  (code = 0 ∨ code = 1)%Z
  ∧ (code = 0%Z
     ↔ charts_data b ≠ [] ∧ send_email_with_charts w (charts_data b) = true)
  ∧ (successful b = [] → code = 1%Z).
Proof.
  intros code b. unfold code, b. rewrite generate_and_send_charts_spec.
  cbn [fst snd charts_data successful].
  pose proof (outcomes_partition (outcomes w TICKERS h)) as (_ & Hc & _).
  revert Hc. generalize (outcomes w TICKERS h). intros out Hc.
  destruct (charts_of out) as [|c cs] eqn:E.
  - split; [by right|]. split; [|done]. split; [done|]. by intros [? _].
  - destruct (send_email_with_charts w (c :: cs)) eqn:Hsend.
    + split; [by left|]. split; [done|].
      intros Hs. rewrite <- Hc in Hs. done.
    + split; [by right|]. split; [|done].
      split; [done|]. by intros [_ ?].
Qed.

(** ** The mail digest *)

Lemma append_assoc (a b c : string) : (a +:+ b) +:+ c = a +:+ b +:+ c.
Proof.
  induction a as [|x a IH]; [done|].
  change (String x ((a +:+ b) +:+ c) = String x (a +:+ b +:+ c)).
  by rewrite IH.
Qed.

Lemma append_nil_r (a : string) : a +:+ EmptyString = a.
Proof.
  induction a as [|x a IH]; [done|].
  change (String x (a +:+ EmptyString) = String x a). by rewrite IH.
Qed.

Lemma html_loop (sv : Mail.Services) (charts_data : list (string * bytes)) init :
  fold_left
    (λ html_body '(ticker, chart_buffer),
       html_body +:+ Mail.html_block ticker (Mail.b64encode sv chart_buffer))
    charts_data init
  = init +:+ foldr (λ c rest,
                      Mail.html_block c.1 (Mail.b64encode sv c.2) +:+ rest)
               EmptyString charts_data.
Proof.
  revert init. induction charts_data as [|[t buf] cs IH]; intros init;
    cbn [fold_left foldr fst snd].
  - by rewrite append_nil_r.
  - by rewrite IH, append_assoc.
Qed.

(** X17. If the sender address, the password or the recipient address is
    absent or empty, the mail function returns false and opens no SMTP
    session. *)
Theorem mail_needs_configuration (cfg : Mail.EmailConfig) (sv : Mail.Services)
    (charts_data : list (string * bytes)) (sessions : list Mail.Session) :
  Mail.truthy (Mail.sender_email cfg) = false
  ∨ Mail.truthy (Mail.sender_password cfg) = false
  ∨ Mail.truthy (Mail.recipient_email cfg) = false →
  Mail.send_email_with_charts cfg sv charts_data sessions = (false, sessions).
Proof.
  intros H. unfold Mail.send_email_with_charts.
  destruct H as [-> | [-> | ->]]; simpl; [done|..].
  - by rewrite andb_false_r.
  - by rewrite andb_false_r.
Qed.

Lemma mail_needs_configuration_witness :
  Mail.send_email_with_charts
    (Mail.mkEmailConfig (Some "me@example.org") (Some EmptyString)
       (Some "you@example.org") "smtp.gmail.com" 587)
    sample_services [("XBI", [x2a])] []
  = (false, []).
Proof. apply mail_needs_configuration. right. by left. Defined.

(** X18. With the three entries present the mail function opens exactly
    one SMTP session, to the configured server and port, logged in as the
    sender, carrying one message from the sender to the recipient whose
    subject is the dated title and whose parts are the plain text and then
    the HTML; it returns true exactly when that session raises nothing. *)
Theorem mail_is_sent_once (cfg : Mail.EmailConfig) (sv : Mail.Services)
    (charts_data : list (string * bytes)) (sessions : list Mail.Session)
    (sender pass recipient : string) :
  Mail.sender_email cfg = Some sender → sender ≠ EmptyString →
  Mail.sender_password cfg = Some pass → pass ≠ EmptyString →
  Mail.recipient_email cfg = Some recipient → recipient ≠ EmptyString →
  let session :=
    Mail.mkSession (Mail.smtp_server cfg) (Mail.smtp_port cfg) sender pass
      (Mail.mkMessage ("Stock Portfolio Charts - " +:+ Mail.today sv)
         sender recipient
         [("plain", Mail.text_body (Mail.today_long sv) charts_data);
          ("html", Mail.html_body sv charts_data)]) in
  Mail.send_email_with_charts cfg sv charts_data sessions
  = (bool_decide (Mail.smtp sv session = Ok tt), sessions ++ [session]).
Proof.
  intros Hs Hs0 Hp Hp0 Hr Hr0 session. unfold Mail.send_email_with_charts.
  rewrite Hs, Hp, Hr.
  destruct sender as [|a1 s1]; [done|]. destruct pass as [|a2 s2]; [done|].
  destruct recipient as [|a3 s3]; [done|].
  cbn [Mail.truthy andb negb default from_option id].
  unfold Mail.subject_line. fold session.
  destruct (Mail.smtp sv session) as [[]|e].
  - by rewrite bool_decide_eq_true_2.
  - by rewrite bool_decide_eq_false_2.
Qed.

Lemma mail_is_sent_once_witness :
  (Mail.send_email_with_charts sample_config sample_services [("XBI", [x2a])] []).1
  = true
  ∧ length (Mail.send_email_with_charts sample_config sample_services
              [("XBI", [x2a])] []).2 = 1.
Proof.
  rewrite (mail_is_sent_once sample_config sample_services [("XBI", [x2a])] []
             "me@example.org" "secret" "you@example.org");
    [|done..].
  split; by_evaluation.
Defined.

(** X19. The HTML part of the mail is the dated head, then one image block
    per chart, in the order of the charts, each with the ticker and the
    base64 text of its own image, then the fixed tail: the loop that appends
    to the body drops, repeats or reorders no chart. *)
Theorem mail_bodies (sv : Mail.Services) (charts_data : list (string * bytes)) :
  Mail.html_body sv charts_data
  = Mail.html_head (Mail.today_long sv)
    +:+ foldr (λ c rest,
                 Mail.html_block c.1 (Mail.b64encode sv c.2) +:+ rest)
          Mail.html_tail charts_data.
Proof.
  unfold Mail.html_body. rewrite html_loop, append_assoc. f_equal.
  induction charts_data as [|c cs IH]; [done|]. cbn [foldr].
  by rewrite append_assoc, IH.
Qed.
